(** * droidrunnerd: the task queue and its single-worker sequencer

    A shallow embedding of [server/main.go] (request validation) and
    [server/queue.go] (the [Queue] type: Submit, Get, All, Position, Cancel,
    Clear, Run/process) together with the properties the design document
    states about them.

    Conventions.
    - Go [string] is [string]; Go [int] is [Z]; [time.Time] is [Time] (a [Z],
      the zero value being [0]); [time.Now()] is an argument [now].
    - [*Task] is an index into [heap]; [q.tasks] maps an ID to such an index,
      so two holders of one pointer see each other's writes.
    - Every function below is one critical section of the source (the code
      between [q.mu.Lock()] and [q.mu.Unlock()]); the interleavings of the
      goroutines are the sequences of these sections.
    - Library calls whose result the code only branches on are inputs:
      [Process.Kill()] (its error), [cmd.Run()] (the process it starts, its
      error and the two captured streams) and [json.Unmarshal] (the decoded
      envelope, if any).
    - [cmd.Process] is nil until [cmd.Run()] has started the process;
      [Process.Kill()] on a nil [Process] is a nil-pointer panic, which
      leaves the queue as it was (the deferred [Unlock] runs, and [net/http]
      recovers the panic of a handler). *)

From stdpp Require Import base option list gmap strings.
From Stdlib Require Import ZArith Ascii Lia.

Open Scope string_scope.
Open Scope Z_scope.

(** ** Data model *)

Definition Time := Z.

(** A decoded JSON value, as [encoding/json] hands it out for [any]. *)
#[warnings="-register-all"]
Inductive json :=
  | JNull
  | JBool (b : bool)
  | JInt (z : Z)
  | JFloat (lit : string)
  | JStr (s : string)
  | JArr (l : list json)
  | JObj (fields : list (string * json)).

Record TaskRequest := mkTaskRequest {
  Goal : string;
  App : string;
  Provider : string;
  Model : string;
  Reasoning : bool;
  Vision : bool;
  MaxSteps : Z;
  APIKey : string
}.

Record TaskRequestSafe := mkTaskRequestSafe {
  sGoal : string;
  sApp : string;
  sProvider : string;
  sModel : string;
  sReasoning : bool;
  sVision : bool;
  sMaxSteps : Z
}.

Record Task := mkTask {
  ID : string;
  Request : TaskRequestSafe;
  Status : string;
  Success : bool;
  Result : string;
  Error : string;
  Logs : string;
  Steps : json;
  CreatedAt : Time;
  StartedAt : Time;
  FinishedAt : Time;
  apiKey : string
}.

Definition set_Status (v : string) (t : Task) : Task :=
  mkTask (ID t) (Request t) v (Success t) (Result t) (Error t) (Logs t)
         (Steps t) (CreatedAt t) (StartedAt t) (FinishedAt t) (apiKey t).
Definition set_Success (v : bool) (t : Task) : Task :=
  mkTask (ID t) (Request t) (Status t) v (Result t) (Error t) (Logs t)
         (Steps t) (CreatedAt t) (StartedAt t) (FinishedAt t) (apiKey t).
Definition set_Result (v : string) (t : Task) : Task :=
  mkTask (ID t) (Request t) (Status t) (Success t) v (Error t) (Logs t)
         (Steps t) (CreatedAt t) (StartedAt t) (FinishedAt t) (apiKey t).
Definition set_Error (v : string) (t : Task) : Task :=
  mkTask (ID t) (Request t) (Status t) (Success t) (Result t) v (Logs t)
         (Steps t) (CreatedAt t) (StartedAt t) (FinishedAt t) (apiKey t).
Definition set_Logs (v : string) (t : Task) : Task :=
  mkTask (ID t) (Request t) (Status t) (Success t) (Result t) (Error t) v
         (Steps t) (CreatedAt t) (StartedAt t) (FinishedAt t) (apiKey t).
Definition set_Steps (v : json) (t : Task) : Task :=
  mkTask (ID t) (Request t) (Status t) (Success t) (Result t) (Error t) (Logs t)
         v (CreatedAt t) (StartedAt t) (FinishedAt t) (apiKey t).
Definition set_StartedAt (v : Time) (t : Task) : Task :=
  mkTask (ID t) (Request t) (Status t) (Success t) (Result t) (Error t) (Logs t)
         (Steps t) (CreatedAt t) v (FinishedAt t) (apiKey t).
Definition set_FinishedAt (v : Time) (t : Task) : Task :=
  mkTask (ID t) (Request t) (Status t) (Success t) (Result t) (Error t) (Logs t)
         (Steps t) (CreatedAt t) (StartedAt t) v (apiKey t).
Definition set_apiKey (v : string) (t : Task) : Task :=
  mkTask (ID t) (Request t) (Status t) (Success t) (Result t) (Error t) (Logs t)
         (Steps t) (CreatedAt t) (StartedAt t) (FinishedAt t) v.

(** ** [main.go]: request validation *)

Definition validProviders (p : string) : bool :=
  bool_decide (p ∈ ["Google"; "GoogleGenAI"; "Anthropic"; "OpenAI"; "DeepSeek"; "Ollama"]).

(** [strings.TrimSpace] on the bytes of a string: the six ASCII white-space
    bytes and the UTF-8 encodings of the other Unicode [White_Space] runes
    (U+0085, U+00A0, U+1680, U+2000..U+200A, U+2028, U+2029, U+202F, U+205F,
    U+3000).  [back] reads the bytes of a rune last-to-first, for the
    trailing end. *)
Definition asciiSpace (a : ascii) : bool :=
  let n := N_of_ascii a in
  ((9 <=? n) && (n <=? 13) || (n =? 32))%N.

Definition space2 (a b : N) : bool :=
  ((a =? 194) && ((b =? 133) || (b =? 160)))%N.

Definition space3 (a b c : N) : bool :=
  ((a =? 225) && (b =? 154) && (c =? 128)
   || (a =? 226) && (b =? 128)
        && ((128 <=? c) && (c <=? 138) || (c =? 168) || (c =? 169) || (c =? 175))
   || (a =? 226) && (b =? 129) && (c =? 159)
   || (a =? 227) && (b =? 128) && (c =? 128))%N.

Fixpoint trimLeading (back : bool) (s : string) : string :=
  match s with
  | EmptyString => s
  | String a r =>
      if asciiSpace a then trimLeading back r
      else
        match r with
        | EmptyString => s
        | String b r2 =>
            let x := N_of_ascii a in
            let y := N_of_ascii b in
            if (if back then space2 y x else space2 x y) then trimLeading back r2
            else
              match r2 with
              | EmptyString => s
              | String c r3 =>
                  let z := N_of_ascii c in
                  if (if back then space3 z y x else space3 x y z)
                  then trimLeading back r3
                  else s
              end
        end
  end.

Definition TrimSpace (s : string) : string :=
  String.rev (trimLeading true (String.rev (trimLeading false s))).

(** The pattern [validateRequest] hands to [regexp.MatchString], and a
    matcher for it: at least two dot-separated segments, each a letter
    followed by letters, digits and underscores. *)
Definition packagePattern : string :=
  "^[a-zA-Z][a-zA-Z0-9_]*(\.[a-zA-Z][a-zA-Z0-9_]*)+$".

Definition isLetter (a : ascii) : bool :=
  let n := N_of_ascii a in
  ((97 <=? n) && (n <=? 122) || (65 <=? n) && (n <=? 90))%N.

Definition isWordByte (a : ascii) : bool :=
  let n := N_of_ascii a in
  (isLetter a || (48 <=? n) && (n <=? 57) || (n =? 95))%N.

Definition isDot (a : ascii) : bool := (N_of_ascii a =? 46)%N.

(** [segmentTail dotted s]: [s] continues a segment whose first letter has
    been read; [dotted] records that a dot has been passed. *)
Fixpoint segmentTail (dotted : bool) (s : string) : bool :=
  match s with
  | EmptyString => dotted
  | String a r =>
      if isWordByte a then segmentTail dotted r
      else if isDot a then
        match r with
        | EmptyString => false
        | String b r' => isLetter b && segmentTail true r'
        end
      else false
  end.

Definition matchPackageName (s : string) : bool :=
  match s with
  | EmptyString => false
  | String a r => isLetter a && segmentTail false r
  end.

Definition set_req (goal provider model : string) (steps : Z) (r : TaskRequest)
  : TaskRequest :=
  mkTaskRequest goal (App r) provider model (Reasoning r) (Vision r) steps
                (APIKey r).

Definition defaultProvider (p : string) : string :=
  if decide (p = "") then "Google" else p.

Definition defaultModel (provider model : string) : string :=
  if decide (model = "") then
    if decide (provider = "Google" ∨ provider = "GoogleGenAI") then "gemini-2.0-flash"
    else if decide (provider = "Anthropic") then "claude-sonnet-4-20250514"
    else if decide (provider = "OpenAI") then "gpt-4o"
    else if decide (provider = "DeepSeek") then "deepseek-chat"
    else if decide (provider = "Ollama") then "llama3.2"
    else model
  else model.

Definition clampSteps (n : Z) : Z :=
  if n <=? 0 then 30 else if 100 <? n then 100 else n.

(** [validateRequest]: the error message, or the request as the function
    leaves it behind its pointer argument when it returns [nil]. *)
Definition validateRequest (req : TaskRequest) (key : string)
  : string + TaskRequest :=
  let goal := TrimSpace (Goal req) in
  if decide (goal = "") then inl "goal is required"
  else
    let provider := defaultProvider (Provider req) in
    if negb (validProviders provider) then
      inl ("invalid provider: " +:+ provider
           +:+ " (valid: Google, Anthropic, OpenAI, DeepSeek, Ollama)")
    else
      let model := defaultModel provider (Model req) in
      let steps := clampSteps (MaxSteps req) in
      if decide (key = "" ∧ provider ≠ "Ollama") then
        inl "API key required (use X-API-Key header)"
      else if decide (App req ≠ "") then
        if matchPackageName (App req) then
          inr (set_req goal provider model steps req)
        else inl ("invalid app package name: " +:+ App req)
      else inr (set_req goal provider model steps req).


(** ** [queue.go]: the queue *)

(** The handle [exec.Command] builds, with what is wired to its standard
    input (the marshalled job descriptor).  [Process] is the process
    [cmd.Run()] has started, [None] (nil) before that. *)
Record Cmd := mkCmd {
  cmdPath : string;
  cmdArgs : list string;
  cmdStdin : json;
  Process : option nat
}.

(** What a critical section does to the outside world. *)
Inductive Event :=
  | EvLog (line : string)
  | EvKill (c : Cmd)
  | EvSpawn (c : Cmd)
  | EvPanic.

Record Queue := mkQueue {
  heap : list Task;
  tasks : gmap string nat;
  pending : list string;
  pendingOrder : list string;
  current : string;
  currentCmd : option Cmd;
  workerPath : string
}.

(** The buffer size of [make(chan string, 100)]. *)
Definition pendingCap : nat := 100.

Definition NewQueue (wp : string) : Queue :=
  mkQueue [] ∅ [] [] "" None wp.

Definition truncate (s : string) (n : nat) : string :=
  if (String.length s <=? n)%nat then s else String.substring 0 n s +:+ "...".

Fixpoint removePendingOrder (id : string) (l : list string) : list string :=
  match l with
  | [] => []
  | taskID :: rest =>
      if decide (taskID = id) then rest
      else taskID :: removePendingOrder id rest
  end.

(** The defaults of [Queue.Submit] and the record it builds. *)
Definition submitProvider (p : string) : string :=
  if decide (p = "") then "Google" else p.
Definition submitModel (m : string) : string :=
  if decide (m = "") then "gemini-2.0-flash" else m.
Definition submitSteps (n : Z) : Z :=
  if decide (n = 0) then 30 else n.

Definition newTask (req : TaskRequest) (key id : string) (now : Time) : Task :=
  mkTask id
    (mkTaskRequestSafe (Goal req) (App req) (submitProvider (Provider req))
       (submitModel (Model req)) (Reasoning req) (Vision req)
       (submitSteps (MaxSteps req)))
    "queued" false "" "" "" JNull now 0 0 key.

(** [Submit] up to [q.mu.Unlock()]: the new record is stored under [id]
    ([id] is what [randomID()] returned) and [id] joins the pending order.
    The result carries the pointer to the new record. *)
Definition SubmitStore (req : TaskRequest) (key id : string) (now : Time)
    (q : Queue) : Queue * nat :=
  let p := length (heap q) in
  (mkQueue (heap q ++ [newTask req key id now]) (<[id := p]> (tasks q))
     (pending q) (pendingOrder q ++ [id]) (current q) (currentCmd q)
     (workerPath q), p).

(** [q.pending <- id]: possible while the buffer has room. *)
Definition send (id : string) (q : Queue) : option Queue :=
  if decide (length (pending q) < pendingCap)%nat then
    Some (mkQueue (heap q) (tasks q) (pending q ++ [id]) (pendingOrder q)
            (current q) (currentCmd q) (workerPath q))
  else None.

(** The whole of [Submit] run without interruption; [None] when the call
    would block on a full channel. *)
Definition Submit (req : TaskRequest) (key id : string) (now : Time)
    (q : Queue) : option (Queue * nat) :=
  let '(q1, p) := SubmitStore req key id now q in
  q2 ← send id q1; Some (q2, p).

Definition Get (id : string) (q : Queue) : option Task :=
  p ← tasks q !! id; heap q !! p.

Definition All (q : Queue) : gmap string nat := tasks q.

Definition Size (q : Queue) : Z := Z.of_nat (length (pending q)).


Fixpoint rankFrom (i : Z) (id : string) (l : list string) : Z :=
  match l with
  | [] => -1
  | taskID :: rest =>
      if decide (taskID = id) then i + 1 else rankFrom (i + 1) id rest
  end.

Definition Position (id : string) (q : Queue) : Z :=
  if decide (current q = id) then 0 else rankFrom 0 id (pendingOrder q).

Definition cancelTask (now : Time) (t : Task) : Task :=
  set_FinishedAt now (set_Status "cancelled" t).

(** [c.Process.Kill()] and the logging of its error: [None] is the panic
    on a nil [Process]; [killErr] is what [Kill] returns otherwise. *)
Definition killProcess (c : Cmd) (killErr : option string)
    (msg : string → string) : option (list Event) :=
  match Process c with
  | None => None
  | Some _ =>
      Some (EvKill c ::
            match killErr with
            | Some e => [EvLog (msg e)]
            | None => []
            end)
  end.

(** [None] when the call panics; nothing has been written by then. *)
Definition Cancel (id : string) (now : Time) (killErr : option string)
    (q : Queue) : option (Queue * bool * list Event) :=
  match tasks q !! id with
  | None => Some (q, false, [])
  | Some p =>
      match heap q !! p with
      | None => Some (q, false, [])
      | Some task =>
          ev ← match currentCmd q with
               | Some c =>
                   if decide (Status task = "running" ∧ current q = id) then
                     killProcess c killErr
                       (λ e, "[" +:+ id +:+ "] Failed to kill process: " +:+ e)
                   else Some []
               | None => Some []
               end;
          if decide (Status task = "queued" ∨ Status task = "running") then
            Some (mkQueue (alter (cancelTask now) p (heap q)) (tasks q)
                    (pending q) (removePendingOrder id (pendingOrder q))
                    (current q) (currentCmd q) (workerPath q), true, ev)
          else Some (q, false, ev)
      end
  end.

(** [None] when the call panics; nothing has been cleared by then. *)
Definition Clear (killErr : option string) (q : Queue)
  : option (Queue * Z * list Event) :=
  ev ← match currentCmd q with
       | Some c =>
           killProcess c killErr (λ e, "Failed to kill current process: " +:+ e)
       | None => Some []
       end;
  Some (mkQueue (heap q) ∅ [] [] "" (currentCmd q) (workerPath q),
        Z.of_nat (size (tasks q)), ev).

(** *** [process]: the sequencer's three critical sections *)

(** What [cmd.Run()] left behind: its error (if any), the captured streams,
    and what [json.Unmarshal(output, &result)] makes of the output
    ([None] when it returns an error). *)
Record Envelope := mkEnvelope {
  eOK : bool;
  eSuccess : bool;
  eReason : string;
  eError : string;
  eSteps : json
}.

Record WorkerExit := mkWorkerExit {
  runErr : option string;
  stdout : string;
  stderr : string;
  unmarshal : option Envelope
}.

Definition startTask (now : Time) (t : Task) : Task :=
  set_StartedAt now (set_Status "running" t).

(** First section: [None] when [q.tasks[id]] is nil and [process] returns;
    otherwise the queue, the task pointer and the key read from the record. *)
Definition processBegin (id : string) (now : Time) (q : Queue)
  : option (Queue * nat * string) :=
  match tasks q !! id with
  | None => None
  | Some p =>
      match heap q !! p with
      | None => None
      | Some task =>
          Some (mkQueue (alter (startTask now) p (heap q)) (tasks q) (pending q)
                  (removePendingOrder id (pendingOrder q)) id (currentCmd q)
                  (workerPath q), p, apiKey task)
      end
  end.

Definition startLog (id : string) (r : TaskRequestSafe) : Event :=
  EvLog ("[" +:+ id +:+ "] Starting task: " +:+ truncate (sGoal r) 50).

(** [json.Marshal] of the [map[string]any] (keys come out sorted). *)
Definition workerInput (r : TaskRequestSafe) (key : string) : json :=
  JObj [("api_key", JStr key);
        ("app", JStr (sApp r));
        ("goal", JStr (sGoal r));
        ("max_steps", JInt (sMaxSteps r));
        ("model", JStr (sModel r));
        ("provider", JStr (sProvider r));
        ("reasoning", JBool (sReasoning r));
        ("vision", JBool (sVision r))].

Definition workerCmd (wp : string) (r : TaskRequestSafe) (key : string) : Cmd :=
  mkCmd "python3" ["python3"; wp] (workerInput r key) None.

(** What [cmd.Run()] does to the handle once the process is started. *)
Definition startCmd (pid : nat) (c : Cmd) : Cmd :=
  mkCmd (cmdPath c) (cmdArgs c) (cmdStdin c) (Some pid).

(** Second section: [q.currentCmd = cmd]. *)
Definition processRegister (c : Cmd) (q : Queue) : Queue :=
  mkQueue (heap q) (tasks q) (pending q) (pendingOrder q) (current q) (Some c)
          (workerPath q).

(** Third section, on the record behind [task]. *)
Definition finishTask (x : WorkerExit) (now : Time) (t : Task) : Task :=
  let t1 := set_Logs (stderr x) (set_FinishedAt now t) in
  if decide (Status t1 = "cancelled") then t1
  else
    match runErr x with
    | Some e =>
        set_Error (if decide (stderr x = "") then e else stderr x)
                  (set_Status "failed" t1)
    | None =>
        match unmarshal x with
        | None =>
            set_Error ("invalid worker output: " +:+ stdout x)
                      (set_Status "failed" t1)
        | Some r =>
            if negb (eOK r) then set_Error (eError r) (set_Status "failed" t1)
            else
              set_Steps (eSteps r)
                (set_Result (eReason r)
                   (set_Success (eSuccess r) (set_Status "completed" t1)))
        end
    end.

Definition showBool (b : bool) : string := if b then "true" else "false".

Definition finishLog (id : string) (x : WorkerExit) (before after : Task) : Event :=
  if decide (Status before = "cancelled") then EvLog ("[" +:+ id +:+ "] Cancelled")
  else
    match runErr x with
    | Some _ => EvLog ("[" +:+ id +:+ "] Failed: " +:+ Error after)
    | None =>
        EvLog ("[" +:+ id +:+ "] Completed: success=" +:+ showBool (Success after))
    end.

Definition processFinish (p : nat) (x : WorkerExit) (now : Time) (q : Queue)
  : Queue :=
  mkQueue (alter (finishTask x now) p (heap q)) (tasks q) (pending q)
          (pendingOrder q) "" None (workerPath q).

(** *** [json.Marshal] of a [Task]

    Exported fields in declaration order; [omitempty] drops [false], the
    empty string and the nil interface, and has no effect on the struct
    [time.Time].  The unexported [apiKey] is not a JSON field. *)
Section Marshal.

(** [time.Time]'s own [MarshalJSON] text. *)
Variable RFC3339 : Time -> string.

Definition omitStr (k v : string) : list (string * json) :=
  if decide (v = "") then [] else [(k, JStr v)].

Definition marshalRequest (r : TaskRequestSafe) : json :=
  JObj ([("goal", JStr (sGoal r))]
        ++ omitStr "app" (sApp r)
        ++ [("provider", JStr (sProvider r));
            ("model", JStr (sModel r));
            ("reasoning", JBool (sReasoning r));
            ("vision", JBool (sVision r));
            ("max_steps", JInt (sMaxSteps r))]).

Definition marshalTask (t : Task) : json :=
  JObj ([("id", JStr (ID t));
         ("request", marshalRequest (Request t));
         ("status", JStr (Status t))]
        ++ (if Success t then [("success", JBool true)] else [])
        ++ omitStr "result" (Result t)
        ++ omitStr "error" (Error t)
        ++ omitStr "logs" (Logs t)
        ++ match Steps t with JNull => [] | v => [("steps", v)] end
        ++ [("created_at", JStr (RFC3339 (CreatedAt t)));
            ("started_at", JStr (RFC3339 (StartedAt t)));
            ("finished_at", JStr (RFC3339 (FinishedAt t)))]).

(** What [GET /task/{id}] and [GET /queue] put on the wire. *)
Definition getJSON (id : string) (q : Queue) : option json :=
  marshalTask <$> Get id q.

Definition allJSON (q : Queue) : gmap string (option json) :=
  (λ p, marshalTask <$> heap q !! p) <$> All q.

End Marshal.

(** ** [main.go]: [handleRun], from the choice of the key on *)



(** Validation, then [Submit]; [inl] is the text of the 400 response. *)
Definition submitChecked (req : TaskRequest) (key id : string) (now : Time)
    (q : Queue) : string + option (Queue * nat) :=
  match validateRequest req key with
  | inl msg => inl msg
  | inr req' => inr (Submit req' key id now q)
  end.


(** ** The goroutines interleaved

    One sequencer ([Run]) and any number of callers.  The sequencer is
    either waiting on the channel, between its first and second critical
    section, past the second with the command published and its process
    not yet started, or waiting in [cmd.Run()] for the started process.
    [senders] holds the IDs of the [Submit] calls that have left their
    critical section and not yet sent. *)
Inductive SeqState :=
  | SeqIdle
  | SeqStarted (id : string) (task : nat) (key : string)
  | SeqPublished (id : string) (task : nat) (c : Cmd)
  | SeqRunning (id : string) (task : nat) (c : Cmd).

Record Sys := mkSys {
  sq : Queue;
  sseq : SeqState;
  senders : list string
}.

Inductive Action :=
  | ASubmit (req : TaskRequest) (key id : string) (now : Time)
  | ASend (i : nat)
  | ACancel (id : string) (now : Time) (killErr : option string)
  | AClear (killErr : option string)
  | ADequeue (now : Time)
  | ARegister
  | AStart (pid : nat)
  | AExit (x : WorkerExit) (now : Time).

Definition initial (wp : string) : Sys := mkSys (NewQueue wp) SeqIdle [].

(** The sequencer's last section and its log line. *)
Definition exitStep (id : string) (p : nat) (x : WorkerExit) (now : Time)
    (s : Sys) : Sys * list Event :=
  let q' := processFinish p x now (sq s) in
  (mkSys q' SeqIdle (senders s),
   match heap (sq s) !! p, heap q' !! p with
   | Some t, Some t' => [finishLog id x t t']
   | _, _ => []
   end).

Definition dropPending (q : Queue) : Queue :=
  mkQueue (heap q) (tasks q) (tail (pending q)) (pendingOrder q) (current q)
          (currentCmd q) (workerPath q).

(** [cmd.Run()] has started the process: the handle the queue points to
    now has its [Process]. *)
Definition processStarted (pid : nat) (q : Queue) : Queue :=
  mkQueue (heap q) (tasks q) (pending q) (pendingOrder q) (current q)
          (startCmd pid <$> currentCmd q) (workerPath q).

(** One atomic step and what it emits; [None] when the action cannot be
    taken in this state.  A [Cancel] or [Clear] that panics leaves the
    state as it is.  [cmd.Run()] either starts the process ([AStart]) and
    later returns ([AExit]), or fails to start it and returns its error at
    once ([AExit] with a run error while the command is only published). *)
Definition step (a : Action) (s : Sys) : option (Sys * list Event) :=
  match a with
  | ASubmit req key id now =>
      let '(q', _) := SubmitStore req key id now (sq s) in
      Some (mkSys q' (sseq s) (senders s ++ [id]), [])
  | ASend i =>
      id ← senders s !! i;
      q' ← send id (sq s);
      Some (mkSys q' (sseq s) (delete i (senders s)), [])
  | ACancel id now killErr =>
      match Cancel id now killErr (sq s) with
      | Some (q', _, ev) => Some (mkSys q' (sseq s) (senders s), ev)
      | None => Some (s, [EvPanic])
      end
  | AClear killErr =>
      match Clear killErr (sq s) with
      | Some (q', _, ev) => Some (mkSys q' (sseq s) (senders s), ev)
      | None => Some (s, [EvPanic])
      end
  | ADequeue now =>
      match sseq s, pending (sq s) with
      | SeqIdle, id :: _ =>
          let q0 := dropPending (sq s) in
          match processBegin id now q0 with
          | None => Some (mkSys q0 SeqIdle (senders s), [])
          | Some (q', p, key) =>
              Some (mkSys q' (SeqStarted id p key) (senders s),
                    match heap q' !! p with
                    | Some t => [startLog id (Request t)]
                    | None => []
                    end)
          end
      | _, _ => None
      end
  | ARegister =>
      match sseq s with
      | SeqStarted id p key =>
          t ← heap (sq s) !! p;
          let c := workerCmd (workerPath (sq s)) (Request t) key in
          Some (mkSys (processRegister c (sq s)) (SeqPublished id p c) (senders s),
                [])
      | _ => None
      end
  | AStart pid =>
      match sseq s with
      | SeqPublished id p c =>
          Some (mkSys (processStarted pid (sq s))
                  (SeqRunning id p (startCmd pid c)) (senders s),
                [EvSpawn (startCmd pid c)])
      | _ => None
      end
  | AExit x now =>
      match sseq s with
      | SeqRunning id p c => Some (exitStep id p x now s)
      | SeqPublished id p c =>
          if decide (is_Some (runErr x)) then Some (exitStep id p x now s)
          else None
      | _ => None
      end
  end.

Inductive reachable (wp : string) : Sys -> Prop :=
  | reach_init : reachable wp (initial wp)
  | reach_step s a s' ev :
      reachable wp s -> step a s = Some (s', ev) -> reachable wp s'.

(** Running a list of actions from a state, collecting what is emitted. *)
Fixpoint exec (l : list Action) (s : Sys) : option (Sys * list Event) :=
  match l with
  | [] => Some (s, [])
  | a :: l' =>
      '(s1, ev1) ← step a s;
      '(s2, ev2) ← exec l' s1;
      Some (s2, (ev1 ++ ev2)%list)
  end.

(** The IDs in the store whose record reads "running". *)
Definition isRunning (q : Queue) (kv : string * nat) : bool :=
  match heap q !! kv.2 with
  | Some t => bool_decide (Status t = "running")
  | None => false
  end.

Definition runningJobs (q : Queue) : list string :=
  (filter (λ kv, isRunning q kv = true) (map_to_list (tasks q))).*1.

(** ** Submission gate *)

Definition rejects (req : TaskRequest) (key : string) : Prop :=
  ∃ msg, validateRequest req key = inl msg.

(** The rejection condition as the design document words it: on the
    provider and credential as submitted. *)
Definition rejection_as_documented (req : TaskRequest) (key : string) : Prop :=
  TrimSpace (Goal req) = ""
  ∨ validProviders (Provider req) = false
  ∨ (App req ≠ "" ∧ matchPackageName (App req) = false)
  ∨ (key = "" ∧ Provider req ≠ "Ollama").

(** The same with the provider read after [validateRequest]'s default. *)
Definition rejection_condition (req : TaskRequest) (key : string) : Prop :=
  TrimSpace (Goal req) = ""
  ∨ validProviders (defaultProvider (Provider req)) = false
  ∨ (App req ≠ "" ∧ matchPackageName (App req) = false)
  ∨ (key = "" ∧ defaultProvider (Provider req) ≠ "Ollama").

Definition budget_of (n steps : Z) : Prop :=
  1 ≤ steps ≤ 100
  ∧ (n ≤ 0 → steps = 30)
  ∧ (100 < n → steps = 100)
  ∧ (1 ≤ n ≤ 100 → steps = n).

(** ** Mutual exclusion *)

(** The record the sequencer holds a pointer to, if any. *)
Definition seqTask (st : SeqState) : option nat :=
  match st with
  | SeqIdle => None
  | SeqStarted _ p _ => Some p
  | SeqPublished _ p _ => Some p
  | SeqRunning _ p _ => Some p
  end.

(** What holds of every reachable state: stored pointers are allocated and
    distinct, the sequencer's pointer is allocated, and a record reads
    "running" only while the sequencer works on it. *)
Record Inv (s : Sys) : Prop := mkInv {
  inv_alloc : ∀ id p, tasks (sq s) !! id = Some p → (p < length (heap (sq s)))%nat;
  inv_inj : ∀ id1 id2 p,
      tasks (sq s) !! id1 = Some p → tasks (sq s) !! id2 = Some p → id1 = id2;
  inv_seq : ∀ p, seqTask (sseq s) = Some p → (p < length (heap (sq s)))%nat;
  inv_running : ∀ p t,
      heap (sq s) !! p = Some t → Status t = "running" → seqTask (sseq s) = Some p
}.

(** The state after one job has been submitted and picked up. *)
Definition one_running : list Action :=
  [ASubmit (mkTaskRequest "open settings" "" "Ollama" "llama3.2" false false 30 "")
     "" "a1b2c3d4" 1;
   ASend 0%nat;
   ADequeue 2].

(** ** Lifecycle *)

(** The transitions the design document allows a status to make. *)
Inductive forward : string -> string -> Prop :=
  | fw_start : forward "queued" "running"
  | fw_cancel_queued : forward "queued" "cancelled"
  | fw_complete : forward "running" "completed"
  | fw_fail : forward "running" "failed"
  | fw_cancel_running : forward "running" "cancelled".

Definition terminal (st : string) : Prop :=
  st = "completed" ∨ st = "failed" ∨ st = "cancelled".

(** [s1] occurs in [s2]. *)
Definition includes (s1 s2 : string) : Prop :=
  ∃ a b, s2 = a +:+ s1 +:+ b.

Fixpoint filler (n : nat) : string :=
  match n with
  | O => ""
  | S n' => String "x" (filler n')
  end.

(** Scenarios, run from a fresh queue. *)
Definition final (l : list Action) : option Sys :=
  fst <$> exec l (initial "./worker.py").

Definition emitted (l : list Action) : list Event :=
  default [] (snd <$> exec l (initial "./worker.py")).

Definition after (l : list Action) : Sys :=
  default (initial "./worker.py") (final l).

Definition jobA : TaskRequest :=
  mkTaskRequest "A" "" "Ollama" "llama3.2" false false 30 "".
Definition jobB : TaskRequest :=
  mkTaskRequest "B" "" "Ollama" "llama3.2" false false 30 "".
Definition jobC : TaskRequest :=
  mkTaskRequest "C" "" "Ollama" "llama3.2" false false 30 "".

(** A worker that exits with status zero and reports success. *)
Definition late_success : WorkerExit :=
  mkWorkerExit None "{...}" "" (Some (mkEnvelope true true "done" "" JNull)).

(** Job A is picked up, its worker is spawned, and A is cancelled while the
    worker runs. *)
Definition cancelled_mid_run : Sys :=
  after [ASubmit jobA "" "aaaaaaaa" 1; ASend 0%nat; ADequeue 2; ARegister;
         AStart 4242; ACancel "aaaaaaaa" 3 None].

(** Jobs A and B are submitted, A is picked up, B is cancelled while it
    waits, A completes. *)
Definition cancelled_in_queue : list Action :=
  [ASubmit jobA "" "aaaaaaaa" 1; ASend 0%nat;
   ASubmit jobB "" "bbbbbbbb" 2; ASend 0%nat;
   ADequeue 3; ARegister; AStart 4242;
   ACancel "bbbbbbbb" 4 None;
   AExit late_success 5].

(** A worker that exits with status zero after writing something that is
    not the result envelope. *)
Definition garbled_exit (out : string) : WorkerExit :=
  mkWorkerExit None out "" None.

(** A worker that exits with status zero and reports [ok: false]. *)
Definition refused_exit : WorkerExit :=
  mkWorkerExit None "{...}" "" (Some (mkEnvelope false false "" "device offline" JNull)).

(** The record of job A once the sequencer has picked it up. *)
Definition jobA_running : Task :=
  startTask 2 (newTask jobA "" "aaaaaaaa" 1).

Definition jobA_cancelled : Task := cancelTask 3 jobA_running.

(** The sequencer's record reads "running" or, once cancelled, "cancelled". *)
Definition SeqInv (s : Sys) : Prop :=
  ∀ p t, seqTask (sseq s) = Some p → heap (sq s) !! p = Some t →
         Status t = "running" ∨ Status t = "cancelled".

(** Closes a goal about a record the step has not written. *)
Ltac unchanged :=
  left; simpl in *; congruence.

(** ** Cancellation and position *)

(** Job A has been picked up by the sequencer, which has not yet published
    the worker command. *)
Definition picked_up : Sys :=
  after [ASubmit jobA "" "aaaaaaaa" 1; ASend 0%nat; ADequeue 2].

(** The sequencer has published A's worker command; [cmd.Run()] has not
    started the process yet. *)
Definition published : Sys :=
  after [ASubmit jobA "" "aaaaaaaa" 1; ASend 0%nat; ADequeue 2; ARegister].

(** The command of job A's worker, before and after its start. *)
Definition cmdA : Cmd :=
  workerCmd "./worker.py"
    (mkTaskRequestSafe "A" "" "Ollama" "llama3.2" false false 30) "".

(** [id] first occurs in [l] at index [j]. *)
Definition first_at (id : string) (l : list string) (j : nat) : Prop :=
  l !! j = Some id ∧ ∀ k, (k < j)%nat → l !! k ≠ Some id.

(** A, B and C are submitted in this order and A is picked up. *)
Definition three_jobs : Sys :=
  after [ASubmit jobA "" "aaaaaaaa" 1; ASend 0%nat;
         ASubmit jobB "" "bbbbbbbb" 2; ASend 0%nat;
         ASubmit jobC "" "cccccccc" 3; ASend 0%nat;
         ADequeue 4].

(** ** The credential *)

(** The system with every credential blanked: the records' [apiKey], the
    key the sequencer carries, and the "api_key" field of what is wired to
    the worker's standard input.  Everything else is kept. *)
Definition scrubTask (t : Task) : Task := set_apiKey "" t.

Definition scrubField (kv : string * json) : string * json :=
  if decide (kv.1 = "api_key") then (kv.1, JStr "") else kv.

Definition scrubInput (j : json) : json :=
  match j with
  | JObj l => JObj (scrubField <$> l)
  | _ => j
  end.

Definition scrubCmd (c : Cmd) : Cmd :=
  mkCmd (cmdPath c) (cmdArgs c) (scrubInput (cmdStdin c)) (Process c).

Definition scrubQueue (q : Queue) : Queue :=
  mkQueue (scrubTask <$> heap q) (tasks q) (pending q) (pendingOrder q)
          (current q) (scrubCmd <$> currentCmd q) (workerPath q).

Definition scrubSeq (st : SeqState) : SeqState :=
  match st with
  | SeqIdle => SeqIdle
  | SeqStarted id p _ => SeqStarted id p ""
  | SeqPublished id p c => SeqPublished id p (scrubCmd c)
  | SeqRunning id p c => SeqRunning id p (scrubCmd c)
  end.

Definition scrubSys (s : Sys) : Sys :=
  mkSys (scrubQueue (sq s)) (scrubSeq (sseq s)) (senders s).

Definition scrubAction (a : Action) : Action :=
  match a with
  | ASubmit req _ id now => ASubmit req "" id now
  | _ => a
  end.

Definition scrubEvent (e : Event) : Event :=
  match e with
  | EvLog l => EvLog l
  | EvKill c => EvKill (scrubCmd c)
  | EvSpawn c => EvSpawn (scrubCmd c)
  | EvPanic => EvPanic
  end.

Definition scrubEvents (ev : list Event) : list Event := scrubEvent <$> ev.

Definition scrubResult {A} (r : Queue * A * list Event)
  : Queue * A * list Event :=
  (scrubQueue r.1.1, r.1.2, scrubEvents r.2).

(** A field of a JSON object. *)
Fixpoint assoc (k : string) (l : list (string * json)) : option json :=
  match l with
  | [] => None
  | (k', v) :: l' => if decide (k' = k) then Some v else assoc k l'
  end.

Definition field (k : string) (j : json) : option json :=
  match j with
  | JObj l => assoc k l
  | _ => None
  end.

Definition secretA : string := "super-secret-api-key".
Definition secretB : string := "another-api-key".

(** Two submissions that differ in the credential only, each picked up and
    handed to a worker. *)
Definition run_with (key : string) : list Action :=
  [ASubmit jobA key "aaaaaaaa" 1; ASend 0%nat; ADequeue 2; ARegister;
   AStart 4242].

(** ** Further properties of the queue *)

(** Every stored pointer is allocated (holds of every reachable queue). *)
Definition allocated (q : Queue) : Prop :=
  ∀ id p, tasks q !! id = Some p → (p < length (heap q))%nat.

(** A queue with two jobs waiting, neither picked up. *)
Definition two_waiting : Queue :=
  sq (after [ASubmit jobA "" "aaaaaaaa" 1; ASend 0%nat;
             ASubmit jobB "" "bbbbbbbb" 2; ASend 0%nat]).


(** Two states of one record: the fields [Submit] sets for good. *)
Definition sameJob (t t' : Task) : Prop :=
  apiKey t' = apiKey t ∧ Request t' = Request t ∧ ID t' = ID t.

(** A record found under an ID carries that ID. *)
Definition IdInv (s : Sys) : Prop :=
  ∀ id p t, tasks (sq s) !! id = Some p → heap (sq s) !! p = Some t → ID t = id.

(** The record the sequencer works on is the one of the ID it received,
    and the key it carries and the descriptor it builds are those of that
    record. *)
Definition KeyInv (s : Sys) : Prop :=
  match sseq s with
  | SeqIdle => True
  | SeqStarted id p key =>
      ∃ t, heap (sq s) !! p = Some t ∧ ID t = id ∧ apiKey t = key
  | SeqPublished id p c =>
      ∃ t, heap (sq s) !! p = Some t ∧ ID t = id
           ∧ c = workerCmd (workerPath (sq s)) (Request t) (apiKey t)
  | SeqRunning id p c =>
      ∃ t pid, heap (sq s) !! p = Some t ∧ ID t = id
               ∧ c = startCmd pid (workerCmd (workerPath (sq s)) (Request t)
                                     (apiKey t))
  end.

(** The channel never holds more than its buffer, every pending ID is
    stored, and every job that reads "queued" is pending. *)
Record QueueInv (s : Sys) : Prop := mkQueueInv {
  qi_room : (length (pending (sq s)) ≤ pendingCap)%nat;
  qi_stored : ∀ id, id ∈ pendingOrder (sq s) → is_Some (tasks (sq s) !! id);
  qi_queued : ∀ id p t,
      tasks (sq s) !! id = Some p → heap (sq s) !! p = Some t →
      Status t = "queued" → id ∈ pendingOrder (sq s)
}.

(** A worker killed by a signal, with a traceback on standard error. *)
Definition crashed_exit : WorkerExit :=
  mkWorkerExit (Some "exit status 1") "" "Traceback: adb not found" None.

(** Job A is picked up and its worker spawned. *)
Definition worker_spawned : Sys :=
  after [ASubmit jobA "" "aaaaaaaa" 1; ASend 0%nat; ADequeue 2; ARegister;
         AStart 4242].

(** ** Patterns

    The fragment of regular expressions the package-name pattern uses,
    with the usual meaning: a byte class, concatenation, zero or more, one
    or more. *)
Inductive regex :=
  | Class (p : ascii → bool)
  | Cat (r1 r2 : regex)
  | Star (r : regex)
  | Plus (r : regex).

Inductive matches : regex → string → Prop :=
  | m_class p a : p a = true → matches (Class p) (String a "")
  | m_cat r1 r2 s1 s2 :
      matches r1 s1 → matches r2 s2 → matches (Cat r1 r2) (s1 +:+ s2)
  | m_star_nil r : matches (Star r) ""
  | m_star_more r s1 s2 :
      matches r s1 → matches (Star r) s2 → matches (Star r) (s1 +:+ s2)
  | m_plus r s1 s2 :
      matches r s1 → matches (Star r) s2 → matches (Plus r) (s1 +:+ s2).

(** [[a-zA-Z][a-zA-Z0-9_]*] and the whole of [packagePattern] between its
    anchors. *)
Definition segment : regex := Cat (Class isLetter) (Star (Class isWordByte)).

Definition packageRegex : regex :=
  Cat segment (Plus (Cat (Class isDot) segment)).

(** ** The request as [handleRun] sees it *)


(** Every byte is one of the six ASCII white-space bytes. *)
Fixpoint blank (s : string) : bool :=
  match s with
  | EmptyString => true
  | String a r => asciiSpace a && blank r
  end.

(** * Properties *)

Lemma validateRequest_rejects req key :
  rejects req key ↔
    TrimSpace (Goal req) = ""
    ∨ validProviders (defaultProvider (Provider req)) = false
    ∨ (App req ≠ "" ∧ matchPackageName (App req) = false)
    ∨ (key = "" ∧ defaultProvider (Provider req) ≠ "Ollama").
Proof.
  unfold rejects, validateRequest.
  destruct (decide (TrimSpace (Goal req) = "")) as [Hg|Hg].
  { split; eauto. }
  destruct (validProviders (defaultProvider (Provider req))) eqn:Hp; simpl.
  2:{ split; eauto. }
  destruct (decide (key = "" ∧ defaultProvider (Provider req) ≠ "Ollama")) as [Hk|Hk].
  { split; eauto. }
  destruct (decide (App req ≠ "")) as [Ha|Ha].
  - destruct (matchPackageName (App req)) eqn:Hm.
    + split; [intros [msg ?]; discriminate|].
      intros [?|[?|[[_ ?]|?]]]; try done.
    + split; eauto 6.
  - split; [intros [msg ?]; discriminate|].
    intros [?|[?|[[? _]|?]]]; try done.
Qed.

Lemma validateRequest_accepts req key r :
  validateRequest req key = inr r →
  r = set_req (TrimSpace (Goal req)) (defaultProvider (Provider req))
        (defaultModel (defaultProvider (Provider req)) (Model req))
        (clampSteps (MaxSteps req)) req.
Proof.
  unfold validateRequest. intros H.
  repeat (case_match; try discriminate); congruence.
Qed.

Lemma clampSteps_spec n :
  1 ≤ clampSteps n ≤ 100
  ∧ (n ≤ 0 → clampSteps n = 30)
  ∧ (100 < n → clampSteps n = 100)
  ∧ (1 ≤ n ≤ 100 → clampSteps n = n).
Proof.
  unfold clampSteps.
  destruct (Z.leb_spec n 0); destruct (Z.ltb_spec 100 n); lia.
Qed.

Lemma submitSteps_clamped n : submitSteps (clampSteps n) = clampSteps n.
Proof.
  unfold submitSteps. case_decide; [|done].
  pose proof (clampSteps_spec n). lia.
Qed.

Lemma Submit_returns req key id now q q' p :
  Submit req key id now q = Some (q', p) →
  heap q' !! p = Some (newTask req key id now)
  ∧ Get id q' = Some (newTask req key id now)
  ∧ pending q' = (pending q ++ [id])%list
  ∧ pendingOrder q' = (pendingOrder q ++ [id])%list.
Proof.
  unfold Submit, SubmitStore, send; simpl. case_decide; [|done].
  intros [= <- <-]; simpl.
  assert (((heap q ++ [newTask req key id now])%list !! length (heap q))
          = Some (newTask req key id now)) as Hl.
  { rewrite lookup_app_r by lia. by rewrite Nat.sub_diag. }
  unfold Get; simpl. rewrite lookup_insert_eq; simpl. by rewrite Hl.
Qed.

Lemma Submit_room req key id now q :
  (length (pending q) < pendingCap)%nat →
  ∃ q' p, Submit req key id now q = Some (q', p).
Proof.
  intros Hroom. unfold Submit, SubmitStore, send; simpl.
  case_decide; [|done]. eauto.
Qed.

Lemma submitChecked_inl req key id now q msg :
  submitChecked req key id now q = inl msg ↔ validateRequest req key = inl msg.
Proof.
  unfold submitChecked. destruct (validateRequest req key); split; congruence.
Qed.

Example validate_ollama_no_key :
  validateRequest (mkTaskRequest "test" "" "Ollama" "" false false 0 "") ""
  = inr (mkTaskRequest "test" "" "Ollama" "llama3.2" false false 30 "").
Proof. reflexivity. Qed.

Example validate_google_no_key :
  validateRequest (mkTaskRequest "test" "" "Google" "" false false 0 "") ""
  = inl "API key required (use X-API-Key header)".
Proof. reflexivity. Qed.

Example validate_blank_goal :
  validateRequest (mkTaskRequest "   " "" "Google" "" false false 0 "") "test-key"
  = inl "goal is required".
Proof. reflexivity. Qed.

Example validate_app_names :
  matchPackageName "com.whatsapp" = true ∧ matchPackageName "invalid" = false
  ∧ matchPackageName "a.b_1.C9" = true ∧ matchPackageName "a..b" = false
  ∧ matchPackageName "a.b." = false ∧ matchPackageName "a.1b" = false.
Proof. repeat split; reflexivity. Qed.

(** C5, as amended.  [submitChecked] (validation followed by [Submit])
    answers with a validation error exactly when the trimmed goal is empty,
    the provider -- an empty provider first replaced by the default
    "Google" -- is not a supported one, the non-empty app identifier does
    not have the package-name shape, or the credential is empty and that
    provider is not "Ollama".  When it returns a record, the record is the
    one stored under the ID, its status is "queued" and its step budget is
    in [1,100]: 30 for a non-positive budget, 100 for one above 100, the
    submitted one otherwise; it does return one whenever the request is not
    rejected and the channel has room.  "Ollama" with an empty credential is
    accepted, "Google" with an empty credential is rejected. *)
Theorem C5_submit_validation req key id now q :
  ((∃ msg, submitChecked req key id now q = inl msg) ↔ rejection_condition req key)
  ∧ (∀ q' p, submitChecked req key id now q = inr (Some (q', p)) →
       ∃ t, heap q' !! p = Some t ∧ Get id q' = Some t ∧ ID t = id
            ∧ Status t = "queued"
            ∧ budget_of (MaxSteps req) (sMaxSteps (Request t)))
  ∧ (¬ rejection_condition req key → (length (pending q) < pendingCap)%nat →
       ∃ q' p, submitChecked req key id now q = inr (Some (q', p)))
  ∧ (Provider req = "Ollama" → key = "" → TrimSpace (Goal req) ≠ "" →
       App req = "" ∨ matchPackageName (App req) = true →
       ∃ r, submitChecked req key id now q = inr r)
  ∧ (Provider req = "Google" → key = "" →
       ∃ msg, submitChecked req key id now q = inl msg).
Proof.
  assert ((∃ msg, submitChecked req key id now q = inl msg)
          ↔ rejection_condition req key) as Hrej.
  { rewrite <- (validateRequest_rejects req key). unfold rejects.
    split; intros [msg H]; exists msg.
    - exact (proj1 (submitChecked_inl req key id now q msg) H).
    - exact (proj2 (submitChecked_inl req key id now q msg) H). }
  split; [exact Hrej|]. repeat split.
  - intros q' p H. unfold submitChecked in H.
    destruct (validateRequest req key) as [|r] eqn:Hv; [discriminate|].
    injection H as H. apply validateRequest_accepts in Hv.
    apply Submit_returns in H as (Hh & Hg & _).
    exists (newTask r key id now). repeat split; try done.
    all: subst r; simpl; rewrite submitSteps_clamped;
      apply clampSteps_spec.
  - intros Hn Hroom. unfold submitChecked.
    destruct (validateRequest req key) as [msg|r] eqn:Hv.
    + exfalso. apply Hn, validateRequest_rejects. by exists msg.
    + destruct (Submit_room r key id now q Hroom) as (q' & p & ->). eauto.
  - intros Hp Hk Hg Ha. unfold submitChecked.
    destruct (validateRequest req key) as [msg|r] eqn:Hv; [|eauto].
    exfalso. assert (rejects req key) as Hr by (by exists msg).
    apply validateRequest_rejects in Hr. rewrite Hp in Hr.
    destruct Hr as [?|[?|[[? ?]|[_ ?]]]]; try done.
    destruct Ha; congruence.
  - intros Hp Hk. apply Hrej. unfold rejection_condition.
    rewrite Hp. right; right; right. done.
Qed.

(** C5 as worded fails on a request that names no provider: the empty
    provider is not a supported one, yet the request is accepted (as a
    "Google" request). *)
Lemma C5_missing_provider_accepted :
  let req := mkTaskRequest "open settings" "" "" "" false false 0 "" in
  rejection_as_documented req "k"
  ∧ submitChecked req "k" "a1b2c3d4" 1 (NewQueue "./worker.py")
    = inr (Submit (mkTaskRequest "open settings" "" "Google" "gemini-2.0-flash"
                     false false 30 "")
             "k" "a1b2c3d4" 1 (NewQueue "./worker.py"))
  ∧ ¬ ((∃ msg, submitChecked req "k" "a1b2c3d4" 1 (NewQueue "./worker.py") = inl msg)
       ↔ rejection_as_documented req "k").
Proof.
  simpl. split; [right; left; reflexivity|]. split; [reflexivity|].
  intros [_ H]. destruct H as [msg H].
  - right; left; reflexivity.
  - discriminate H.
Qed.

(** *** The invariant *)

Lemma lookup_alter_Some {A} (f : A → A) (l : list A) (i j : nat) (y : A) :
  alter f i l !! j = Some y →
  (i = j ∧ ∃ x, l !! i = Some x ∧ y = f x) ∨ (i ≠ j ∧ l !! j = Some y).
Proof.
  rewrite list_lookup_alter. case_decide as Hij.
  - subst j. destruct (l !! i) as [x|]; simpl; [|done].
    intros [= <-]. left. eauto.
  - intros ?. by right.
Qed.

Lemma finishTask_not_running x now t : Status (finishTask x now t) ≠ "running".
Proof.
  unfold finishTask. simpl.
  case_decide as Hc; simpl; [by rewrite Hc|].
  destruct (runErr x); simpl; [done|].
  destruct (unmarshal x) as [r|]; simpl; [|done].
  by destruct (eOK r).
Qed.

Lemma Inv_initial wp : Inv (initial wp).
Proof. split; simpl; done. Qed.

Lemma Inv_submit req key id now s :
  Inv s →
  Inv (mkSys (SubmitStore req key id now (sq s)).1 (sseq s) (senders s ++ [id])).
Proof.
  intros [Ha Hi Hs Hr]. split; simpl.
  - intros id' p. rewrite lookup_insert, length_app. simpl.
    case_decide; [intros [= <-]; lia|]. intros H'%Ha. lia.
  - intros id1 id2 p. rewrite !lookup_insert.
    repeat case_decide; subst; try done.
    + intros [= <-] H'%Ha. lia.
    + intros H'%Ha [= <-]. lia.
    + apply Hi.
  - intros p Hp%Hs. rewrite length_app. lia.
  - intros p t Hl Hst.
    destruct (decide (p < length (heap (sq s)))%nat) as [Hlt|Hge].
    + rewrite lookup_app_l in Hl by done. eauto.
    + rewrite lookup_app_r in Hl by lia.
      destruct (p - length (heap (sq s)))%nat; simpl in Hl; [|done].
      injection Hl as <-. done.
Qed.

Lemma Cancel_Some id now ke q q' b ev :
  Cancel id now ke q = Some (q', b, ev) →
  (q' = q ∧ b = false)
  ∨ ∃ p task,
      tasks q !! id = Some p ∧ heap q !! p = Some task
      ∧ (Status task = "queued" ∨ Status task = "running")
      ∧ b = true
      ∧ q' = mkQueue (alter (cancelTask now) p (heap q)) (tasks q) (pending q)
               (removePendingOrder id (pendingOrder q)) (current q)
               (currentCmd q) (workerPath q).
Proof.
  unfold Cancel. intros H.
  destruct (tasks q !! id) as [p|] eqn:Hp; [|injection H as <- <- _; by left].
  destruct (heap q !! p) as [task|] eqn:Ht; [|injection H as <- <- _; by left].
  match type of H with (?o ≫= _) = _ => destruct o as [ev0|] end;
    simpl in H; [|done].
  case_decide; injection H as <- <- _; [right; eauto 10|by left].
Qed.

Lemma Clear_Some ke q q' n ev :
  Clear ke q = Some (q', n, ev) →
  q' = mkQueue (heap q) ∅ [] [] "" (currentCmd q) (workerPath q)
  ∧ n = Z.of_nat (size (tasks q)).
Proof.
  unfold Clear. intros H.
  match type of H with (?o ≫= _) = _ => destruct o as [ev0|] end;
    simpl in H; [|done].
  by injection H as <- <- _.
Qed.

(** The three shapes of the steps taken by callers and by the worker's
    exit. *)
Lemma step_cancel_inv id now ke s s' ev :
  step (ACancel id now ke) s = Some (s', ev) →
  s' = s
  ∨ ∃ q' b, Cancel id now ke (sq s) = Some (q', b, ev)
            ∧ s' = mkSys q' (sseq s) (senders s).
Proof.
  unfold step. destruct (Cancel id now ke (sq s)) as [[[q' b] ev']|] eqn:E.
  - intros [= <- <-]. right. eauto.
  - intros [= <- _]. by left.
Qed.

Lemma step_clear_inv ke s s' ev :
  step (AClear ke) s = Some (s', ev) →
  s' = s
  ∨ ∃ q' n, Clear ke (sq s) = Some (q', n, ev)
            ∧ s' = mkSys q' (sseq s) (senders s).
Proof.
  unfold step. destruct (Clear ke (sq s)) as [[[q' n] ev']|] eqn:E.
  - intros [= <- <-]. right. eauto.
  - intros [= <- _]. by left.
Qed.

Lemma step_exit_inv x now s s' ev :
  step (AExit x now) s = Some (s', ev) →
  ∃ id p c,
    (sseq s = SeqRunning id p c
     ∨ sseq s = SeqPublished id p c ∧ is_Some (runErr x))
    ∧ s' = mkSys (processFinish p x now (sq s)) SeqIdle (senders s)
    ∧ (s', ev) = exitStep id p x now s.
Proof.
  unfold step. destruct (sseq s) as [| |id p c|id p c] eqn:Hseq; try done.
  - case_decide as He; [|done]. intros [= <- <-]. exists id, p, c.
    split; [by right|]. done.
  - intros [= <- <-]. exists id, p, c. split; [by left|]. done.
Qed.

Lemma Inv_cancel id now ke s q' b ev :
  Inv s → Cancel id now ke (sq s) = Some (q', b, ev) →
  Inv (mkSys q' (sseq s) (senders s)).
Proof.
  intros [Ha Hi Hs Hr] [[-> _]|(p & task & Hp & Ht & Hst & _ & ->)]%Cancel_Some;
    [by split|].
  split; simpl; try rewrite length_alter; try done.
  intros p' t' [[-> (x & _ & ->)]|[_ Hl]]%lookup_alter_Some Hst'; [done|eauto].
Qed.

Lemma Inv_clear ke s q' n ev :
  Inv s → Clear ke (sq s) = Some (q', n, ev) →
  Inv (mkSys q' (sseq s) (senders s)).
Proof. intros [Ha Hi Hs Hr] [-> _]%Clear_Some. split; simpl; done. Qed.

Lemma step_Inv a s s' ev : Inv s → step a s = Some (s', ev) → Inv s'.
Proof.
  intros HI Hstep.
  destruct a as [req key id now|i|id now ke|ke|now| |pid|x now].
  - unfold step in Hstep.
    pose proof (Inv_submit req key id now s HI) as H'.
    destruct (SubmitStore req key id now (sq s)) as [q' p'] eqn:E.
    injection Hstep as <- <-. exact H'.
  - unfold step in Hstep.
    destruct (senders s !! i) as [id|]; simpl in Hstep; [|done].
    unfold send in Hstep. case_decide; simpl in Hstep; [|done].
    injection Hstep as <- <-. destruct HI as [Ha Hi Hs Hr]. by split.
  - apply step_cancel_inv in Hstep as [->|(q' & b & HC & ->)]; [done|].
    by eapply Inv_cancel.
  - apply step_clear_inv in Hstep as [->|(q' & n & HC & ->)]; [done|].
    by eapply Inv_clear.
  - unfold step in Hstep. destruct HI as [Ha Hi Hs Hr].
    destruct (sseq s) eqn:Hseq; try done.
    destruct (pending (sq s)) as [|id rest] eqn:Hpend; [done|].
    unfold processBegin in Hstep. simpl in Hstep.
    destruct (tasks (sq s) !! id) as [p|] eqn:Hp.
    2:{ injection Hstep as <- <-. split; simpl; done. }
    destruct (heap (sq s) !! p) as [task|] eqn:Ht.
    2:{ injection Hstep as <- <-. split; simpl; done. }
    injection Hstep as <- <-. split; simpl; try rewrite length_alter; try done.
    + intros p' [= <-]. eauto.
    + intros p' t' [[-> _]|[_ Hl]]%lookup_alter_Some Hst; [done|].
      by specialize (Hr p' t' Hl Hst).
  - unfold step in Hstep. destruct HI as [Ha Hi Hs Hr].
    destruct (sseq s) as [|id p key| |] eqn:Hseq; try done.
    destruct (heap (sq s) !! p) as [t|] eqn:Ht; simpl in Hstep; [|done].
    injection Hstep as <- <-. by split.
  - unfold step in Hstep. destruct HI as [Ha Hi Hs Hr].
    destruct (sseq s) as [| |id p c|] eqn:Hseq; try done.
    injection Hstep as <- <-. by split.
  - apply step_exit_inv in Hstep as (id & p & c & Hseq & -> & _).
    destruct HI as [Ha Hi Hs Hr].
    split; simpl; try rewrite length_alter; try done.
    intros p' t' [[-> (t0 & _ & ->)]|[Hne Hl]]%lookup_alter_Some Hst.
    + by apply finishTask_not_running in Hst.
    + specialize (Hr p' t' Hl Hst).
      destruct Hseq as [Hseq|[Hseq _]]; rewrite Hseq in Hr; simpl in Hr;
        congruence.
Qed.

Lemma reachable_Inv wp s : reachable wp s → Inv s.
Proof.
  induction 1 as [|s a s' ev _ IH Hstep]; [apply Inv_initial|].
  exact (step_Inv a s s' ev IH Hstep).
Qed.

Lemma exec_reachable wp l : ∀ s s' ev,
  reachable wp s → exec l s = Some (s', ev) → reachable wp s'.
Proof.
  induction l as [|a l IH]; simpl; intros s s' ev Hr He.
  - by injection He as <- <-.
  - destruct (step a s) as [[s1 ev1]|] eqn:Hs; simpl in He; [|done].
    destruct (exec l s1) as [[s2 ev2]|] eqn:He2; simpl in He; [|done].
    injection He as <- <-.
    exact (IH s1 s2 ev2 (reach_step wp s a s1 ev1 Hr Hs) He2).
Qed.

Lemma elem_of_runningJobs q id :
  id ∈ runningJobs q ↔
  ∃ p t, tasks q !! id = Some p ∧ heap q !! p = Some t ∧ Status t = "running".
Proof.
  unfold runningJobs. rewrite list_elem_of_fmap. split.
  - intros ([id' p] & -> & [Hrun Hin%elem_of_map_to_list]%list_elem_of_filter).
    unfold isRunning in Hrun. simpl in *.
    destruct (heap q !! p) as [t|] eqn:Ht; [|done].
    apply bool_decide_eq_true in Hrun. eauto.
  - intros (p & t & Hp & Ht & Hst). exists (id, p). split; [done|].
    apply list_elem_of_filter. split; [|by apply elem_of_map_to_list].
    unfold isRunning. simpl. rewrite Ht. by apply bool_decide_eq_true.
Qed.

Lemma NoDup_runningJobs q : NoDup (runningJobs q).
Proof.
  unfold runningJobs. eapply sublist_NoDup; [apply (NoDup_fst_map_to_list (tasks q))|].
  apply fmap_sublist, sublist_filter.
Qed.

Lemma NoDup_all_equal {A} (l : list A) :
  NoDup l → (∀ x y, x ∈ l → y ∈ l → x = y) → (length l ≤ 1)%nat.
Proof.
  intros Hnd Heq. destruct l as [|x [|y l]]; simpl; try lia.
  exfalso. apply NoDup_cons in Hnd as [Hx _]. apply Hx.
  rewrite (Heq x y); [left|left|right; left].
Qed.

Lemma Inv_one_running s id1 id2 t1 t2 :
  Inv s →
  Get id1 (sq s) = Some t1 → Status t1 = "running" →
  Get id2 (sq s) = Some t2 → Status t2 = "running" →
  id1 = id2.
Proof.
  intros [Ha Hi Hs Hr]. unfold Get.
  destruct (tasks (sq s) !! id1) as [p1|] eqn:H1; simpl; [|done].
  destruct (tasks (sq s) !! id2) as [p2|] eqn:H2; simpl; [|done].
  intros Hl1 Hs1 Hl2 Hs2.
  pose proof (Hr p1 t1 Hl1 Hs1) as E1. pose proof (Hr p2 t2 Hl2 Hs2) as E2.
  rewrite E1 in E2. injection E2 as <-. eauto.
Qed.

(** C1.  In every state reachable from [NewQueue] by any interleaving of
    the critical sections of Submit, Cancel, Clear and the sequencer, at
    most one job in the task store has status "running". *)
Theorem C1_at_most_one_running wp s :
  reachable wp s →
  (length (runningJobs (sq s)) ≤ 1)%nat
  ∧ ∀ id1 id2 t1 t2,
      Get id1 (sq s) = Some t1 → Status t1 = "running" →
      Get id2 (sq s) = Some t2 → Status t2 = "running" →
      id1 = id2.
Proof.
  intros HI%reachable_Inv. split.
  - apply NoDup_all_equal; [apply NoDup_runningJobs|].
    intros id1 id2 (p1 & t1 & H1 & Hl1 & Hs1)%elem_of_runningJobs
           (p2 & t2 & H2 & Hl2 & Hs2)%elem_of_runningJobs.
    apply (Inv_one_running s id1 id2 t1 t2 HI); unfold Get;
      rewrite ?H1, ?H2; done.
  - intros id1 id2 t1 t2. by apply Inv_one_running.
Qed.

Lemma C1_witness :
  ∃ s ev, exec one_running (initial "./worker.py") = Some (s, ev)
          ∧ runningJobs (sq s) = ["a1b2c3d4"]
          ∧ (length (runningJobs (sq s)) ≤ 1)%nat.
Proof.
  eexists _, _. split; [vm_compute; reflexivity|]. split; [vm_compute; reflexivity|].
  eapply (C1_at_most_one_running "./worker.py").
  eapply (exec_reachable "./worker.py" one_running (initial "./worker.py"));
    [apply reach_init | vm_compute; reflexivity].
Defined.

(** *** Finalization *)

(** C4.  When the sequencer's job reads "cancelled" at the moment its
    worker has exited, the finalization step leaves the status "cancelled"
    and does not write the success flag, the result text, the error text or
    the step trace, whatever the worker's outcome was. *)
Theorem C4_cancellation_wins s id p c t x now :
  sseq s = SeqRunning id p c →
  heap (sq s) !! p = Some t →
  Status t = "cancelled" →
  ∃ s' t',
    step (AExit x now) s = Some (s', [EvLog ("[" +:+ id +:+ "] Cancelled")])
    ∧ sseq s' = SeqIdle
    ∧ heap (sq s') !! p = Some t'
    ∧ Status t' = "cancelled"
    ∧ Success t' = Success t ∧ Result t' = Result t
    ∧ Error t' = Error t ∧ Steps t' = Steps t.
Proof.
  intros Hseq Ht Hst. unfold step, exitStep. rewrite Hseq, Ht.
  assert (heap (processFinish p x now (sq s)) !! p = Some (finishTask x now t)) as Hl.
  { unfold processFinish; simpl. by rewrite list_lookup_alter_eq, Ht. }
  rewrite Hl. eexists _, _. split.
  { unfold finishLog. by rewrite decide_True. }
  simpl. rewrite list_lookup_alter_eq, Ht. simpl.
  unfold finishTask. simpl. rewrite decide_True by done. done.
Qed.

Lemma C4_witness :
  ∃ s' t',
    step (AExit late_success 4) cancelled_mid_run
    = Some (s', [EvLog "[aaaaaaaa] Cancelled"])
    ∧ heap (sq s') !! 0%nat = Some t'
    ∧ Status t' = "cancelled"
    ∧ Success t' = false ∧ Result t' = "" ∧ Error t' = "".
Proof.
  destruct (C4_cancellation_wins cancelled_mid_run "aaaaaaaa" 0%nat
              (startCmd 4242 cmdA)
              (mkTask "aaaaaaaa"
                 (mkTaskRequestSafe "A" "" "Ollama" "llama3.2" false false 30)
                 "cancelled" false "" "" "" JNull 1 2 3 "")
              late_success 4)
    as (s' & t' & H1 & _ & H2 & H3 & H4 & H5 & H6 & _);
    [vm_compute; reflexivity ..|].
  exists s', t'. repeat split; assumption.
Defined.

Lemma exit_finishes_task s id p c t x now :
  sseq s = SeqRunning id p c →
  heap (sq s) !! p = Some t →
  ∃ s', step (AExit x now) s = Some (s', [finishLog id x t (finishTask x now t)])
        ∧ sseq s' = SeqIdle
        ∧ heap (sq s') !! p = Some (finishTask x now t)
        ∧ current (sq s') = "" ∧ currentCmd (sq s') = None.
Proof.
  intros Hseq Ht. unfold step, exitStep. rewrite Hseq, Ht.
  assert (heap (processFinish p x now (sq s)) !! p = Some (finishTask x now t)) as Hl.
  { unfold processFinish; simpl. by rewrite list_lookup_alter_eq, Ht. }
  rewrite Hl. eexists. split; [reflexivity|]. by simpl.
Qed.

Lemma length_append s1 s2 :
  String.length (s1 +:+ s2) = (String.length s1 + String.length s2)%nat.
Proof. induction s1 as [|a s1 IH]; simpl; [done|]. by rewrite IH. Qed.

Lemma length_filler n : String.length (filler n) = n.
Proof. induction n as [|n IH]; simpl; [done|]. by rewrite IH. Qed.

Lemma append_empty_r s : s +:+ "" = s.
Proof.
  induction s as [|c s IH]; [done|].
  change (String c (s +:+ "") = String c s). by rewrite IH.
Qed.

Lemma includes_suffix a s : includes s (a +:+ s).
Proof. exists a, "". by rewrite append_empty_r. Qed.

Lemma finishTask_unparseable x now t :
  runErr x = None → unmarshal x = None → Status t ≠ "cancelled" →
  Status (finishTask x now t) = "failed"
  ∧ Error (finishTask x now t) = "invalid worker output: " +:+ stdout x.
Proof.
  intros He Hu Hst. unfold finishTask. simpl.
  rewrite decide_False by done. by rewrite He, Hu.
Qed.

(** C9, as amended.  When the worker exits with no error and its standard
    output does not decode as the result envelope, a job that has not been
    cancelled in the meantime is marked "failed" and its error text is
    "invalid worker output: " followed by the whole of the raw output (no
    truncation), not the text of a process-exit error. *)
Theorem C9_unparseable_output x now t :
  runErr x = None →
  unmarshal x = None →
  Status t ≠ "cancelled" →
  Status (finishTask x now t) = "failed"
  ∧ Error (finishTask x now t) = "invalid worker output: " +:+ stdout x
  ∧ includes (stdout x) (Error (finishTask x now t))
  ∧ String.length (Error (finishTask x now t))
    = (23 + String.length (stdout x))%nat.
Proof.
  intros He Hu Hst.
  destruct (finishTask_unparseable x now t He Hu Hst) as [-> ->].
  split; [done|]. split; [done|]. split.
  - apply (includes_suffix "invalid worker output: ").
  - exact (length_append "invalid worker output: " (stdout x)).
Qed.

Lemma C9_witness :
  Status (finishTask (garbled_exit "Traceback: boom") 3 jobA_running) = "failed"
  ∧ Error (finishTask (garbled_exit "Traceback: boom") 3 jobA_running)
    = "invalid worker output: Traceback: boom".
Proof.
  destruct (C9_unparseable_output (garbled_exit "Traceback: boom") 3 jobA_running)
    as (H1 & H2 & _); [reflexivity | reflexivity | vm_compute; discriminate |].
  split; [exact H1 | exact H2].
Defined.

(** C9 as worded fails twice over: no bound limits the error text (the raw
    output is appended whole), and a run whose job was cancelled in the
    meantime is not marked "failed". *)
Lemma C9_output_not_truncated_and_cancel_excepted :
  (¬ ∃ bound : nat, ∀ x now t,
       runErr x = None → unmarshal x = None → Status t ≠ "cancelled" →
       (String.length (Error (finishTask x now t)) ≤ bound)%nat)
  ∧ String.length (Error (finishTask (garbled_exit (filler 200)) 3 jobA_running))
    = 223%nat
  ∧ Get "aaaaaaaa" (sq cancelled_mid_run) = Some jobA_cancelled
  ∧ Status (finishTask (garbled_exit "Traceback: boom") 4 jobA_cancelled) = "cancelled"
  ∧ Error (finishTask (garbled_exit "Traceback: boom") 4 jobA_cancelled) = "".
Proof.
  split; [|split; [|split; [vm_compute; reflexivity|split; reflexivity]]].
  - intros [bound H].
    specialize (H (garbled_exit (filler (S bound))) 3 jobA_running
                  eq_refl eq_refl).
    assert (Status jobA_running ≠ "cancelled") as Hst by (vm_compute; discriminate).
    specialize (H Hst).
    destruct (finishTask_unparseable (garbled_exit (filler (S bound))) 3
                jobA_running eq_refl eq_refl Hst) as [_ Herr].
    rewrite Herr, length_append in H.
    change (stdout (garbled_exit (filler (S bound)))) with (filler (S bound)) in H.
    rewrite length_filler in H. simpl in H. lia.
  - destruct (finishTask_unparseable (garbled_exit (filler 200)) 3 jobA_running)
      as [_ Herr]; [reflexivity | reflexivity | vm_compute; discriminate|].
    rewrite Herr, length_append.
    change (stdout (garbled_exit (filler 200))) with (filler 200).
    by rewrite length_filler.
Qed.

(** C10, as amended.  When the worker exits with status zero and its output
    decodes as an envelope whose [ok] is false, a job that has not been
    cancelled in the meantime is marked "failed" with the envelope's error
    as error text, and the success flag, the result text and the step
    trace are not written: they keep what they held, which for a job run
    for the first time is false, the empty string and nil. *)
Theorem C10_envelope_not_ok x r now t :
  runErr x = None →
  unmarshal x = Some r →
  eOK r = false →
  Status t ≠ "cancelled" →
  Status (finishTask x now t) = "failed"
  ∧ Error (finishTask x now t) = eError r
  ∧ Success (finishTask x now t) = Success t
  ∧ Result (finishTask x now t) = Result t
  ∧ Steps (finishTask x now t) = Steps t
  ∧ ∀ req key id created started,
      t = startTask started (newTask req key id created) →
      Success (finishTask x now t) = false
      ∧ Result (finishTask x now t) = ""
      ∧ Steps (finishTask x now t) = JNull.
Proof.
  intros He Hu Hok Hst. unfold finishTask. simpl.
  rewrite decide_False by done. rewrite He, Hu, Hok. simpl.
  repeat split; by subst t.
Qed.

Lemma C10_witness :
  Status (finishTask refused_exit 3 jobA_running) = "failed"
  ∧ Error (finishTask refused_exit 3 jobA_running) = "device offline"
  ∧ Success (finishTask refused_exit 3 jobA_running) = false
  ∧ Result (finishTask refused_exit 3 jobA_running) = ""
  ∧ Steps (finishTask refused_exit 3 jobA_running) = JNull.
Proof.
  destruct (C10_envelope_not_ok refused_exit
              (mkEnvelope false false "" "device offline" JNull) 3 jobA_running)
    as (H1 & H2 & _ & _ & _ & H3);
    [reflexivity | reflexivity | reflexivity | vm_compute; discriminate |].
  destruct (H3 jobA "" "aaaaaaaa" 1 2 eq_refl) as (H4 & H5 & H6).
  repeat split; assumption.
Defined.

(** C10 as worded fails on a run whose job was cancelled in the meantime:
    the worker exits with status zero and reports [ok: false], and the job
    stays "cancelled" with no error text. *)
Lemma C10_cancelled_run_not_failed :
  Get "aaaaaaaa" (sq cancelled_mid_run) = Some jobA_cancelled
  ∧ runErr refused_exit = None
  ∧ (∃ r, unmarshal refused_exit = Some r ∧ eOK r = false)
  ∧ Status (finishTask refused_exit 4 jobA_cancelled) = "cancelled"
  ∧ Error (finishTask refused_exit 4 jobA_cancelled) = ""
  ∧ ¬ (Status (finishTask refused_exit 4 jobA_cancelled) = "failed"
       ∧ Error (finishTask refused_exit 4 jobA_cancelled) = "device offline").
Proof.
  split; [vm_compute; reflexivity|].
  split; [reflexivity|]. split; [eexists; split; reflexivity|].
  split; [reflexivity|]. split; [reflexivity|].
  intros [H _]. vm_compute in H. discriminate H.
Qed.

(** *** The sequencer's first critical section *)

Lemma processBegin_ignores_status id now q p t :
  tasks q !! id = Some p →
  heap q !! p = Some t →
  ∃ q', processBegin id now q = Some (q', p, apiKey t)
        ∧ heap q' !! p = Some (startTask now t)
        ∧ Status (startTask now t) = "running"
        ∧ StartedAt (startTask now t) = now
        ∧ current q' = id.
Proof.
  intros Hp Ht. unfold processBegin. rewrite Hp, Ht. eexists. split; [done|].
  simpl. by rewrite list_lookup_alter_eq, Ht.
Qed.

(** C2 at its failing input.  Job B is cancelled while it waits behind A;
    when A is done the sequencer takes B's ID from the channel, and B,
    which reads "cancelled", is set to "running", gets a start time, has
    its worker command published and a worker process started for it. *)
Lemma C2_cancelled_job_is_run :
  ∃ s s1 ev1 s2 s3 c,
    final cancelled_in_queue = Some s
    ∧ Status <$> Get "bbbbbbbb" (sq s) = Some "cancelled"
    ∧ pending (sq s) = ["bbbbbbbb"]
    ∧ step (ADequeue 6) s = Some (s1, ev1)
    ∧ Status <$> Get "bbbbbbbb" (sq s1) = Some "running"
    ∧ StartedAt <$> Get "bbbbbbbb" (sq s1) = Some 6
    ∧ step ARegister s1 = Some (s2, [])
    ∧ step (AStart 4243) s2 = Some (s3, [EvSpawn c])
    ∧ Process c = Some 4243%nat
    ∧ cmdStdin c = workerInput (mkTaskRequestSafe "B" "" "Ollama" "llama3.2" false false 30) "".
Proof.
  eexists _, _, _, _, _, _.
  split; [vm_compute; reflexivity|].
  repeat split; vm_compute; reflexivity.
Qed.

Lemma forward_from_terminal st st' : terminal st → ¬ forward st st'.
Proof. intros [->|[->| ->]] H; inversion H. Qed.

(** C3 at its failing input: the same step takes B's status from the
    terminal "cancelled" back to "running" (and the worker's exit then
    takes it on to "completed"). *)
Lemma C3_terminal_status_changes :
  ∃ s s1 ev1,
    final cancelled_in_queue = Some s
    ∧ Status <$> Get "bbbbbbbb" (sq s) = Some "cancelled"
    ∧ step (ADequeue 6) s = Some (s1, ev1)
    ∧ Status <$> Get "bbbbbbbb" (sq s1) = Some "running"
    ∧ terminal "cancelled"
    ∧ ¬ forward "cancelled" "running"
    ∧ (Status <$> (s2 ← final (cancelled_in_queue
                                 ++ [ADequeue 6; ARegister; AStart 4243;
                                     AExit late_success 7]);
                  Get "bbbbbbbb" (sq s2))) = Some "completed".
Proof.
  eexists _, _, _.
  split; [vm_compute; reflexivity|].
  split; [vm_compute; reflexivity|].
  split; [vm_compute; reflexivity|].
  split; [vm_compute; reflexivity|].
  split; [right; right; reflexivity|].
  split; [apply forward_from_terminal; right; right; reflexivity|].
  vm_compute; reflexivity.
Qed.

(** Every other step respects the lifecycle. *)
Lemma SeqInv_initial wp : SeqInv (initial wp).
Proof. intros p t. done. Qed.

Lemma step_SeqInv a s s' ev : Inv s → SeqInv s → step a s = Some (s', ev) → SeqInv s'.
Proof.
  intros [Ha Hi Hs Hr] HJ Hstep.
  destruct a as [req key id now|i|id now ke|ke|now| |pid|x now].
  - unfold step in Hstep.
    injection Hstep as <- <-. intros p t Hp Hl. simpl in *.
    specialize (Hs p Hp). rewrite lookup_app_l in Hl by done. eauto.
  - unfold step in Hstep.
    destruct (senders s !! i) as [id|]; simpl in Hstep; [|done].
    unfold send in Hstep. case_decide; simpl in Hstep; [|done].
    injection Hstep as <- <-. exact HJ.
  - apply step_cancel_inv in Hstep as [->|(q' & b & HC & ->)]; [done|].
    apply Cancel_Some in HC as [[-> _]|(p0 & task & Hp0 & Ht & Hst & _ & ->)];
      [exact HJ|].
    intros p t Hp Hl. simpl in *.
    apply lookup_alter_Some in Hl as [[-> (t0 & _ & ->)]|[_ Hl]]; [by right|eauto].
  - apply step_clear_inv in Hstep as [->|(q' & n & HC & ->)]; [done|].
    apply Clear_Some in HC as [-> _]. exact HJ.
  - unfold step in Hstep.
    destruct (sseq s) eqn:Hseq; try done.
    destruct (pending (sq s)) as [|id rest] eqn:Hpend; [done|].
    unfold processBegin in Hstep. simpl in Hstep.
    destruct (tasks (sq s) !! id) as [p0|] eqn:Hp0;
      [|injection Hstep as <- <-; intros p t; done].
    destruct (heap (sq s) !! p0) as [task|] eqn:Ht;
      [|injection Hstep as <- <-; intros p t; done].
    injection Hstep as <- <-. intros p t [= <-] Hl. simpl in Hl.
    rewrite list_lookup_alter_eq, Ht in Hl. injection Hl as <-. by left.
  - unfold step in Hstep.
    destruct (sseq s) as [|id p0 key| |] eqn:Hseq; try done.
    destruct (heap (sq s) !! p0) as [t0|] eqn:Ht; simpl in Hstep; [|done].
    injection Hstep as <- <-. intros p t Hp Hl.
    apply (HJ p t); [by rewrite Hseq|done].
  - unfold step in Hstep.
    destruct (sseq s) as [| |id p0 c|] eqn:Hseq; try done.
    injection Hstep as <- <-. intros p t Hp Hl.
    apply (HJ p t); [by rewrite Hseq|done].
  - apply step_exit_inv in Hstep as (id & p0 & c & _ & -> & _).
    intros p t; done.
Qed.

Lemma reachable_SeqInv wp s : reachable wp s → SeqInv s.
Proof.
  induction 1 as [|s a s' ev Hr IH Hstep]; [apply SeqInv_initial|].
  exact (step_SeqInv a s s' ev (reachable_Inv wp s Hr) IH Hstep).
Qed.

Lemma finishTask_forward x now t :
  Status t = "running" ∨ Status t = "cancelled" →
  Status (finishTask x now t) = Status t
  ∨ forward (Status t) (Status (finishTask x now t)).
Proof.
  intros Hst. unfold finishTask. simpl.
  case_decide as Hc; simpl; [by left|].
  destruct Hst as [Hrun|Hcan]; [|done]. right. rewrite Hrun.
  destruct (runErr x); simpl; [constructor|].
  destruct (unmarshal x) as [r|]; simpl; [|constructor].
  destruct (eOK r); simpl; constructor.
Qed.

Lemma step_forward wp a s s' ev p t t' :
  reachable wp s →
  step a s = Some (s', ev) →
  heap (sq s) !! p = Some t →
  heap (sq s') !! p = Some t' →
  Status t' = Status t
  ∨ forward (Status t) (Status t')
  ∨ (∃ now, a = ADequeue now) ∧ Status t' = "running".
Proof.
  intros Hreach Hstep Hl Hl'.
  pose proof (reachable_SeqInv wp s Hreach) as HJ.
  destruct a as [req key id now|i|id now ke|ke|now| |pid|x now].
  - unfold step in Hstep. injection Hstep as <- <-. simpl in Hl'.
    rewrite lookup_app_l in Hl' by (by eapply lookup_lt_Some).
    unchanged.
  - unfold step in Hstep.
    destruct (senders s !! i) as [id|]; simpl in Hstep; [|done].
    unfold send in Hstep. case_decide; simpl in Hstep; [|done].
    injection Hstep as <- <-. unchanged.
  - apply step_cancel_inv in Hstep as [->|(q' & b & HC & ->)]; [unchanged|].
    apply Cancel_Some in HC as [[-> _]|(p0 & task & Hp0 & Ht & Hq & _ & ->)];
      [unchanged|].
    simpl in Hl'.
    apply lookup_alter_Some in Hl' as [[-> (t0 & Ht0 & ->)]|[_ Hl']];
      [|unchanged].
    assert (t0 = t) as -> by congruence. assert (task = t) as -> by congruence.
    right; left. simpl. destruct Hq as [-> | ->]; constructor.
  - apply step_clear_inv in Hstep as [->|(q' & n & HC & ->)]; [unchanged|].
    apply Clear_Some in HC as [-> _]. unchanged.
  - unfold step in Hstep.
    destruct (sseq s) eqn:Hseq; try done.
    destruct (pending (sq s)) as [|id rest] eqn:Hpend; [done|].
    unfold processBegin in Hstep. simpl in Hstep.
    destruct (tasks (sq s) !! id) as [p0|] eqn:Hp0;
      [|injection Hstep as <- <-; unchanged].
    destruct (heap (sq s) !! p0) as [task|] eqn:Ht;
      [|injection Hstep as <- <-; unchanged].
    injection Hstep as <- <-. simpl in Hl'.
    apply lookup_alter_Some in Hl' as [[-> (t0 & Ht0 & ->)]|[_ Hl']];
      [|unchanged].
    right; right. split; [by exists now|done].
  - unfold step in Hstep.
    destruct (sseq s) as [|id p0 key| |] eqn:Hseq; try done.
    destruct (heap (sq s) !! p0) as [t0|] eqn:Ht; simpl in Hstep; [|done].
    injection Hstep as <- <-. unchanged.
  - unfold step in Hstep.
    destruct (sseq s) as [| |id p0 c|] eqn:Hseq; try done.
    injection Hstep as <- <-. unchanged.
  - apply step_exit_inv in Hstep as (id & p0 & c & Hseq & -> & _).
    simpl in Hl'.
    apply lookup_alter_Some in Hl' as [[-> (t0 & Ht0 & ->)]|[_ Hl']];
      [|unchanged].
    assert (t0 = t) as -> by congruence.
    destruct (finishTask_forward x now t) as [?|?]; [|by left|by right; left].
    apply (HJ p t); [|done].
    by destruct Hseq as [->|[-> _]].
Qed.

(** *** Cancel *)

Lemma removePendingOrder_NoDup id l : NoDup l → id ∉ removePendingOrder id l.
Proof.
  induction l as [|x l IH]; simpl; intros Hnd.
  - apply not_elem_of_nil.
  - apply NoDup_cons in Hnd as [Hx Hnd]. case_decide as Heq.
    + by subst x.
    + apply not_elem_of_cons. split; [congruence|auto].
Qed.

Lemma Get_Some id q t :
  Get id q = Some t ↔ ∃ p, tasks q !! id = Some p ∧ heap q !! p = Some t.
Proof.
  unfold Get. destruct (tasks q !! id) as [p|]; simpl.
  - split; [eauto|]. by intros (p' & [= <-] & ?).
  - split; [done|]. by intros (p' & ? & _).
Qed.

Lemma Cancel_miss id now ke q :
  Get id q = None → Cancel id now ke q = Some (q, false, []).
Proof.
  unfold Get, Cancel. destruct (tasks q !! id) as [p|]; simpl; [|done].
  by intros ->.
Qed.

Lemma Cancel_terminal id now ke q t :
  Get id q = Some t → terminal (Status t) →
  Cancel id now ke q = Some (q, false, []).
Proof.
  intros (p & Hp & Ht)%Get_Some Hterm. unfold Cancel. rewrite Hp, Ht.
  assert (¬ (Status t = "running" ∧ current q = id)) as Hn
    by (by destruct Hterm as [->|[->| ->]]; intros [? _]).
  assert (¬ (Status t = "queued" ∨ Status t = "running")) as Hn'
    by (by destruct Hterm as [->|[->| ->]]; intros [?|?]).
  destruct (currentCmd q); simpl.
  - rewrite decide_False by done. simpl. by rewrite decide_False.
  - by rewrite decide_False.
Qed.

(** [Cancel] of a queued or running job when the kill, if one is due,
    finds a process. *)
Lemma Cancel_hit id now ke q t :
  Get id q = Some t →
  Status t = "queued" ∨ Status t = "running" →
  (∀ c, Status t = "running" → current q = id → currentCmd q = Some c →
        is_Some (Process c)) →
  ∃ q' ev,
    Cancel id now ke q = Some (q', true, ev)
    ∧ Get id q' = Some (cancelTask now t)
    ∧ pendingOrder q' = removePendingOrder id (pendingOrder q)
    ∧ current q' = current q ∧ currentCmd q' = currentCmd q
    ∧ pending q' = pending q ∧ tasks q' = tasks q
    ∧ ev = match currentCmd q with
           | Some c =>
               if decide (Status t = "running" ∧ current q = id) then
                 EvKill c ::
                 match ke with
                 | Some e => [EvLog ("[" +:+ id +:+ "] Failed to kill process: " +:+ e)]
                 | None => []
                 end
               else []
           | None => []
           end.
Proof.
  intros (p & Hp & Ht)%Get_Some Hst Hproc. unfold Cancel. rewrite Hp, Ht.
  assert (Get id (mkQueue (alter (cancelTask now) p (heap q)) (tasks q)
                    (pending q) (removePendingOrder id (pendingOrder q))
                    (current q) (currentCmd q) (workerPath q))
          = Some (cancelTask now t)) as Hget.
  { apply Get_Some. exists p. simpl. by rewrite list_lookup_alter_eq, Ht. }
  destruct (currentCmd q) as [c|] eqn:Hc; simpl.
  - destruct (decide (Status t = "running" ∧ current q = id)) as [[Hrun Hcur]|Hk];
      simpl.
    + destruct (Hproc c Hrun Hcur eq_refl) as [pid Hpid].
      unfold killProcess. rewrite Hpid. simpl.
      rewrite decide_True by done. eexists _, _. split; [reflexivity|].
      done.
    + rewrite decide_True by done. eexists _, _. split; [reflexivity|].
      done.
  - rewrite decide_True by done. eexists _, _. split; [reflexivity|].
    done.
Qed.

(** [Cancel] of the running, current job while its command is published
    and its process not yet started. *)
Lemma Cancel_panics id now ke q t c :
  Get id q = Some t → Status t = "running" → current q = id →
  currentCmd q = Some c → Process c = None →
  Cancel id now ke q = None.
Proof.
  intros (p & Hp & Ht)%Get_Some Hrun Hcur Hc Hproc.
  unfold Cancel. rewrite Hp, Ht, Hc. simpl.
  rewrite decide_True by done. unfold killProcess. by rewrite Hproc.
Qed.

(** X13.  What [Cancel(id)] does in each case.  It returns false and changes
    nothing when the ID is unknown or the job is in a terminal state.  When
    the job is "queued" it marks the job cancelled, sets its finished time,
    removes the ID from the pending order, signals no process and returns
    true.  When the job is "running" and current: with no command published
    it marks the job cancelled and returns true without a signal; with a
    command whose process is started it sends the kill, whose failure is
    only logged, marks the job cancelled and returns true; with a command
    whose process is not yet started it panics. *)
Lemma X13_cancel_cases id now ke q :
  (Get id q = None → Cancel id now ke q = Some (q, false, []))
  ∧ (∀ t, Get id q = Some t → terminal (Status t) →
       Cancel id now ke q = Some (q, false, []))
  ∧ (∀ t, Get id q = Some t → Status t = "queued" →
       ∃ q', Cancel id now ke q = Some (q', true, [])
             ∧ Get id q' = Some (cancelTask now t)
             ∧ Status (cancelTask now t) = "cancelled"
             ∧ FinishedAt (cancelTask now t) = now
             ∧ pendingOrder q' = removePendingOrder id (pendingOrder q)
             ∧ (NoDup (pendingOrder q) → id ∉ pendingOrder q'))
  ∧ (∀ t, Get id q = Some t → Status t = "running" → current q = id →
       (currentCmd q = None →
          ∃ q', Cancel id now ke q = Some (q', true, [])
                ∧ Get id q' = Some (cancelTask now t))
       ∧ (∀ c pid, currentCmd q = Some c → Process c = Some pid →
          ∃ q' ev, Cancel id now ke q = Some (q', true, ev)
                   ∧ Get id q' = Some (cancelTask now t)
                   ∧ EvKill c ∈ ev)
       ∧ (∀ c, currentCmd q = Some c → Process c = None →
          Cancel id now ke q = None)).
Proof.
  split; [apply Cancel_miss|]. split; [apply Cancel_terminal|]. split.
  - intros t Hg Hst.
    destruct (Cancel_hit id now ke q t Hg (or_introl Hst))
      as (q' & ev & Hc & Hg' & Hpo & _ & _ & _ & _ & Hev).
    { intros c Hrun. rewrite Hst in Hrun. discriminate. }
    assert (ev = []) as ->.
    { rewrite Hev. destruct (currentCmd q); [|done].
      rewrite decide_False; [done|]. rewrite Hst. by intros [? _]. }
    exists q'. repeat split; try done.
    rewrite Hpo. apply removePendingOrder_NoDup.
  - intros t Hg Hst Hcur. split; [|split].
    + intros Hcmd.
      destruct (Cancel_hit id now ke q t Hg (or_intror Hst))
        as (q' & ev & Hc & Hg' & _ & _ & _ & _ & _ & Hev).
      { intros c _ _ Hc. congruence. }
      rewrite Hcmd in Hev. subst ev. eauto.
    + intros c pid Hcmd Hpid.
      destruct (Cancel_hit id now ke q t Hg (or_intror Hst))
        as (q' & ev & Hc & Hg' & _ & _ & _ & _ & _ & Hev).
      { intros c' _ _ Hc'. assert (c' = c) as -> by congruence. eauto. }
      exists q', ev. split; [done|]. split; [done|].
      rewrite Hev, Hcmd, decide_True by done. left.
    + intros c Hcmd Hproc. by eapply Cancel_panics.
Qed.

(** C6 at its failing inputs.  Job A is running and is the current job.
    Before the sequencer has published A's worker command, [Cancel] marks A
    cancelled and returns true without terminating anything, and the
    sequencer then publishes the command and starts the worker of the
    cancelled job.  Once the command is published and until its process is
    started, [Cancel] panics on the nil [Process]: A is not marked
    cancelled and nothing is returned. *)
Lemma C6_running_job_not_terminated :
  (Status <$> Get "aaaaaaaa" (sq picked_up) = Some "running"
   ∧ current (sq picked_up) = "aaaaaaaa"
   ∧ currentCmd (sq picked_up) = None
   ∧ ∃ q' s1 s2 c,
       Cancel "aaaaaaaa" 3 None (sq picked_up) = Some (q', true, [])
       ∧ step (ACancel "aaaaaaaa" 3 None) picked_up = Some (s1, [])
       ∧ Status <$> Get "aaaaaaaa" (sq s1) = Some "cancelled"
       ∧ exec [ARegister; AStart 4242] s1 = Some (s2, [EvSpawn c])
       ∧ Status <$> Get "aaaaaaaa" (sq s2) = Some "cancelled"
       ∧ sseq s2 = SeqRunning "aaaaaaaa" 0%nat c)
  ∧ (Status <$> Get "aaaaaaaa" (sq published) = Some "running"
     ∧ current (sq published) = "aaaaaaaa"
     ∧ currentCmd (sq published) = Some cmdA
     ∧ Process cmdA = None
     ∧ Cancel "aaaaaaaa" 3 None (sq published) = None
     ∧ step (ACancel "aaaaaaaa" 3 None) published = Some (published, [EvPanic])).
Proof.
  split.
  - split; [vm_compute; reflexivity|]. split; [vm_compute; reflexivity|].
    split; [vm_compute; reflexivity|].
    eexists _, _, _, _. repeat split; vm_compute; reflexivity.
  - repeat split; vm_compute; reflexivity.
Qed.

(** *** Position *)

Lemma rankFrom_first id l : ∀ i j,
  first_at id l j → rankFrom i id l = i + Z.of_nat j + 1.
Proof.
  induction l as [|x l IH]; intros i j [Hj Hfirst]; [done|].
  simpl. case_decide as Hx.
  - destruct j as [|j]; [lia|].
    exfalso. apply (Hfirst 0%nat); [lia|]. simpl. by rewrite Hx.
  - destruct j as [|j]; simpl in Hj; [congruence|].
    rewrite (IH (i + 1) j); [lia|]. split; [done|].
    intros k Hk. apply (Hfirst (S k)). lia.
Qed.

Lemma rankFrom_absent id l : ∀ i, id ∉ l → rankFrom i id l = -1.
Proof.
  induction l as [|x l IH]; intros i Hn; [done|].
  simpl. apply not_elem_of_cons in Hn as [Hne Hn].
  rewrite decide_False by congruence. by apply IH.
Qed.

Lemma rankFrom_remove_earlier id id' l : ∀ i j k,
  first_at id l j → l !! k = Some id' → (k < j)%nat →
  rankFrom i id (removePendingOrder id' l) = rankFrom i id l - 1.
Proof.
  induction l as [|x l IH]; intros i j k Hf Hk Hlt; [done|].
  assert (x ≠ id) as Hx.
  { intros ->. destruct Hf as [_ Hfirst]. apply (Hfirst 0%nat); [lia|done]. }
  destruct j as [|j]; [lia|].
  assert (first_at id l j) as Hf'.
  { destruct Hf as [Hj Hfirst]. split; [done|].
    intros m Hm. apply (Hfirst (S m)). lia. }
  simpl. rewrite (decide_False (P := x = id)) by done.
  case_decide as Hx'.
  - rewrite (rankFrom_first id l i j Hf'), (rankFrom_first id l (i + 1) j Hf'). lia.
  - simpl. rewrite decide_False by done.
    destruct k as [|k]; simpl in Hk; [congruence|].
    apply (IH (i + 1) j k); [done|done|lia].
Qed.

(** C7.  [Position(id)] is 0 when [id] is the current job; otherwise it is
    the 1-based rank of [id] in the pending order when [id] is pending, and
    -1 when it is not.  The position of a pending job that is not current
    goes down by exactly one when a job ahead of it in the pending order is
    picked up by the sequencer or is cancelled. *)
Theorem C7_position id q :
  (current q = id → Position id q = 0)
  ∧ (current q ≠ id → ∀ j, first_at id (pendingOrder q) j →
       Position id q = Z.of_nat j + 1)
  ∧ (current q ≠ id → id ∉ pendingOrder q → Position id q = -1)
  ∧ (∀ id' j k,
       current q ≠ id → first_at id (pendingOrder q) j →
       pendingOrder q !! k = Some id' → (k < j)%nat →
       (∀ now q' p key, processBegin id' now q = Some (q', p, key) →
          Position id q' = Position id q - 1)
       ∧ (∀ now ke q' ev, Cancel id' now ke q = Some (q', true, ev) →
          Position id q' = Position id q - 1)).
Proof.
  unfold Position. split; [|split; [|split]].
  - intros Hc. by rewrite decide_True.
  - intros Hc j Hf. rewrite decide_False by done.
    rewrite (rankFrom_first id _ 0 j Hf). lia.
  - intros Hc Hn. rewrite decide_False by done. by apply rankFrom_absent.
  - intros id' j k Hc Hf Hk Hlt.
    assert (id' ≠ id) as Hne.
    { intros ->. destruct Hf as [_ Hfirst]. by apply (Hfirst k). }
    rewrite (decide_False (P := current q = id)) by done.
    pose proof (rankFrom_remove_earlier id id' _ 0 j k Hf Hk Hlt) as Hrank.
    split.
    + intros now q' p key Hb. unfold processBegin in Hb.
      destruct (tasks q !! id') as [p'|]; [|done].
      destruct (heap q !! p') as [task|]; [|done].
      injection Hb as <- _ _. simpl. by rewrite decide_False.
    + intros now ke q' ev
        [[_ ?]|(p' & task & _ & _ & _ & _ & ->)]%Cancel_Some; [done|].
      simpl. by rewrite decide_False.
Qed.

(** The scenario of the design document: while A runs, B is at 1 and C at
    2; cancelling B brings C to 1. *)
Lemma C7_witness :
  Position "aaaaaaaa" (sq three_jobs) = 0
  ∧ Position "bbbbbbbb" (sq three_jobs) = 1
  ∧ Position "cccccccc" (sq three_jobs) = 2
  ∧ Position "dddddddd" (sq three_jobs) = -1
  ∧ ∃ q' ev, Cancel "bbbbbbbb" 5 None (sq three_jobs) = Some (q', true, ev)
             ∧ Position "cccccccc" q' = 1.
Proof.
  assert (current (sq three_jobs) = "aaaaaaaa") as Hcur by (vm_compute; reflexivity).
  assert (pendingOrder (sq three_jobs) = ["bbbbbbbb"; "cccccccc"]) as Hpo
    by (vm_compute; reflexivity).
  assert (first_at "cccccccc" (pendingOrder (sq three_jobs)) 1) as Hc.
  { rewrite Hpo. split; [reflexivity|].
    intros [|k] Hk; [simpl; discriminate|lia]. }
  assert (first_at "bbbbbbbb" (pendingOrder (sq three_jobs)) 0) as Hb.
  { rewrite Hpo. split; [reflexivity|]. intros k Hk. lia. }
  split; [|split; [|split; [|split]]].
  - apply (C7_position "aaaaaaaa" (sq three_jobs)). exact Hcur.
  - apply (proj1 (proj2 (C7_position "bbbbbbbb" (sq three_jobs)))) with (j := 0%nat);
      [rewrite Hcur; discriminate | exact Hb].
  - apply (proj1 (proj2 (C7_position "cccccccc" (sq three_jobs)))) with (j := 1%nat);
      [rewrite Hcur; discriminate | exact Hc].
  - apply (proj1 (proj2 (proj2 (C7_position "dddddddd" (sq three_jobs)))));
      [rewrite Hcur; discriminate|].
    rewrite Hpo. intros Hin. by repeat (apply elem_of_cons in Hin as [Hin|Hin]; [discriminate|]);
      apply elem_of_nil in Hin.
  - destruct (proj2 (proj2 (proj2 (C7_position "cccccccc" (sq three_jobs))))
                "bbbbbbbb" 1%nat 0%nat) as [_ Hcancel];
      [rewrite Hcur; discriminate | exact Hc | rewrite Hpo; reflexivity | lia |].
    destruct (Cancel "bbbbbbbb" 5 None (sq three_jobs)) as [[[q' b] ev]|] eqn:E;
      [|vm_compute in E; discriminate].
    assert (b = true) as -> by (vm_compute in E; congruence).
    exists q', ev. split; [reflexivity|].
    rewrite (Hcancel 5 None q' ev E).
    rewrite (proj1 (proj2 (C7_position "cccccccc" (sq three_jobs)))
               ltac:(rewrite Hcur; discriminate) 1%nat Hc).
    reflexivity.
Defined.

(** *** The credential stays out of what callers see *)

Lemma marshalTask_scrub fmt t : marshalTask fmt (scrubTask t) = marshalTask fmt t.
Proof. reflexivity. Qed.

Lemma scrub_alter (f : Task → Task) (p : nat) (h : list Task) :
  (∀ t, scrubTask (f t) = f (scrubTask t)) →
  scrubTask <$> alter f p h = alter f p (scrubTask <$> h).
Proof. intros Hf. apply list_fmap_alter, Forall_forall. auto. Qed.

Lemma finishTask_scrub x now t :
  scrubTask (finishTask x now t) = finishTask x now (scrubTask t).
Proof.
  unfold finishTask. simpl. case_decide; [done|].
  destruct (runErr x); [done|]. destruct (unmarshal x) as [r|]; [|done].
  by destruct (eOK r).
Qed.

Lemma finishLog_scrub id x t t' :
  finishLog id x (scrubTask t) (scrubTask t') = finishLog id x t t'.
Proof. reflexivity. Qed.

Lemma killProcess_scrub c ke msg :
  killProcess (scrubCmd c) ke msg = scrubEvents <$> killProcess c ke msg.
Proof. unfold killProcess. simpl. destruct (Process c); [|done]. by destruct ke. Qed.

Lemma Cancel_scrub id now ke q :
  Cancel id now ke (scrubQueue q)
  = scrubResult <$> Cancel id now ke q.
Proof.
  unfold Cancel. simpl. destruct (tasks q !! id) as [p|]; [|done].
  rewrite list_lookup_fmap. destruct (heap q !! p) as [task|]; simpl; [|done].
  assert ((match scrubCmd <$> currentCmd q with
           | Some c =>
               if decide (Status task = "running" ∧ current q = id) then
                 killProcess c ke
                   (λ e, "[" +:+ id +:+ "] Failed to kill process: " +:+ e)
               else Some []
           | None => Some []
           end)
          = scrubEvents <$>
            (match currentCmd q with
             | Some c =>
                 if decide (Status task = "running" ∧ current q = id) then
                   killProcess c ke
                     (λ e, "[" +:+ id +:+ "] Failed to kill process: " +:+ e)
                 else Some []
             | None => Some []
             end)) as ->.
  { destruct (currentCmd q); simpl; [|done]. case_decide; [|done].
    apply killProcess_scrub. }
  match goal with
  | |- context [scrubEvents <$> ?o] => destruct o as [ev|]
  end; simpl; [|done].
  case_decide; simpl; [|done].
  unfold scrubResult, scrubQueue; simpl. by rewrite scrub_alter.
Qed.

Lemma Clear_scrub ke q :
  Clear ke (scrubQueue q)
  = scrubResult <$> Clear ke q.
Proof.
  unfold Clear. simpl.
  assert ((match scrubCmd <$> currentCmd q with
           | Some c =>
               killProcess c ke (λ e, "Failed to kill current process: " +:+ e)
           | None => Some []
           end)
          = scrubEvents <$>
            (match currentCmd q with
             | Some c =>
                 killProcess c ke (λ e, "Failed to kill current process: " +:+ e)
             | None => Some []
             end)) as ->.
  { destruct (currentCmd q); simpl; [|done]. apply killProcess_scrub. }
  match goal with
  | |- context [scrubEvents <$> ?o] => destruct o as [ev|]
  end; by simpl.
Qed.

Lemma exitStep_scrub id p x now s :
  exitStep id p x now (scrubSys s)
  = (scrubSys (exitStep id p x now s).1, scrubEvent <$> (exitStep id p x now s).2).
Proof.
  unfold exitStep, scrubSys, scrubQueue, processFinish; simpl.
  rewrite (scrub_alter (finishTask x now)) by apply finishTask_scrub.
  rewrite !list_lookup_alter_eq, !list_lookup_fmap.
  destruct (heap (sq s) !! p) as [t|]; simpl; [|done].
  rewrite <- finishTask_scrub, finishLog_scrub. do 2 f_equal.
  unfold finishLog. case_decide; [done|]. by destruct (runErr x).
Qed.

(** Every step of the system is matched, credential for credential blanked,
    by the same step of the blanked system: nothing but the worker's
    standard input is computed from a credential. *)
Lemma step_scrub a s s' ev :
  step a s = Some (s', ev) →
  step (scrubAction a) (scrubSys s) = Some (scrubSys s', scrubEvent <$> ev).
Proof.
  intros Hstep.
  destruct a as [req key id now|i|id now ke|ke|now| |pid|x now]; unfold step in *.
  - injection Hstep as <- <-. unfold scrubSys, scrubQueue; simpl.
    by rewrite fmap_app, length_fmap.
  - simpl in *. destruct (senders s !! i) as [id|]; simpl in *; [|done].
    unfold send in *. simpl. case_decide; simpl in *; [|done].
    by injection Hstep as <- <-.
  - cbn [scrubAction scrubSys sq sseq senders]. rewrite Cancel_scrub.
    destruct (Cancel id now ke (sq s)) as [[[q' b] ev']|]; simpl.
    + by injection Hstep as <- <-.
    + by injection Hstep as <- <-.
  - cbn [scrubAction scrubSys sq sseq senders]. rewrite Clear_scrub.
    destruct (Clear ke (sq s)) as [[[q' n] ev']|]; simpl.
    + by injection Hstep as <- <-.
    + by injection Hstep as <- <-.
  - simpl scrubAction. simpl in *.
    destruct (sseq s) eqn:Hseq; try done. simpl.
    destruct (pending (sq s)) as [|id rest] eqn:Hpend; [done|].
    unfold processBegin in *. simpl in *.
    destruct (tasks (sq s) !! id) as [p|]; [|by injection Hstep as <- <-].
    rewrite list_lookup_fmap.
    destruct (heap (sq s) !! p) as [task|] eqn:Ht; simpl;
      [|by injection Hstep as <- <-].
    injection Hstep as <- <-. unfold scrubSys, scrubQueue; simpl.
    rewrite !list_lookup_alter_eq, list_lookup_fmap, Ht. simpl.
    by rewrite scrub_alter.
  - simpl in *. destruct (sseq s) as [|id p key| |] eqn:Hseq; try done. simpl.
    rewrite list_lookup_fmap.
    destruct (heap (sq s) !! p) as [t|]; simpl in *; [|done].
    by injection Hstep as <- <-.
  - simpl in *. destruct (sseq s) as [| |id p c|] eqn:Hseq; try done. simpl.
    injection Hstep as <- <-.
    unfold scrubSys, scrubQueue, processStarted; simpl.
    do 4 f_equal. by destruct (currentCmd (sq s)).
  - cbn [scrubAction].
    change (sseq (scrubSys s)) with (scrubSeq (sseq s)).
    destruct (sseq s) as [| |id p c|id p c] eqn:Hseq; try done; simpl.
    + case_decide; [|done].
      assert (exitStep id p x now s = (s', ev)) as E by congruence.
      by rewrite exitStep_scrub, E.
    + assert (exitStep id p x now s = (s', ev)) as E by congruence.
      by rewrite exitStep_scrub, E.
Qed.

Lemma exec_scrub l : ∀ s s' ev,
  exec l s = Some (s', ev) →
  exec (scrubAction <$> l) (scrubSys s) = Some (scrubSys s', scrubEvent <$> ev).
Proof.
  induction l as [|a l IH]; intros s s' ev He; simpl in He.
  - by injection He as <- <-.
  - destruct (step a s) as [[s1 ev1]|] eqn:Hs; simpl in He; [|done].
    destruct (exec l s1) as [[s2 ev2]|] eqn:He2; simpl in He; [|done].
    injection He as <- <-.
    pose proof (IH s1 s2 ev2 He2) as IH'.
    rewrite fmap_cons. cbn [exec].
    rewrite (step_scrub a s s1 ev1 Hs). cbn [mbind option_bind].
    rewrite IH'. cbn [mbind option_bind]. by rewrite fmap_app.
Qed.

Lemma allJSON_scrub fmt q : allJSON fmt (scrubQueue q) = allJSON fmt q.
Proof.
  unfold allJSON, All. simpl. apply map_fmap_ext. intros id p _.
  rewrite list_lookup_fmap. by destruct (heap q !! p).
Qed.

Lemma getJSON_scrub fmt id q : getJSON fmt id (scrubQueue q) = getJSON fmt id q.
Proof.
  unfold getJSON, Get. simpl. destruct (tasks q !! id) as [p|]; simpl; [|done].
  rewrite list_lookup_fmap. by destruct (heap q !! p).
Qed.

Lemma field_marshalTask fmt t : field "api_key" (marshalTask fmt t) = None.
Proof.
  unfold marshalTask, omitStr, field. simpl.
  destruct (Success t); simpl;
    repeat (case_decide; simpl); destruct (Steps t); reflexivity.
Qed.

Lemma field_marshalRequest r : field "api_key" (marshalRequest r) = None.
Proof.
  unfold marshalRequest, omitStr, field. simpl. by case_decide.
Qed.

Lemma scrubSys_initial wp : scrubSys (initial wp) = initial wp.
Proof. reflexivity. Qed.

(** *** The credential reaches the worker *)

Lemma sameJob_refl t : sameJob t t.
Proof. done. Qed.

Lemma sameJob_trans t1 t2 t3 : sameJob t1 t2 → sameJob t2 t3 → sameJob t1 t3.
Proof. intros (? & ? & ?) (? & ? & ?). repeat split; congruence. Qed.

Lemma cancelTask_sameJob now t : sameJob t (cancelTask now t).
Proof. by repeat split. Qed.

Lemma startTask_sameJob now t : sameJob t (startTask now t).
Proof. by repeat split. Qed.

Lemma finishTask_sameJob x now t : sameJob t (finishTask x now t).
Proof.
  unfold finishTask, sameJob. simpl. case_decide; [done|].
  destruct (runErr x); [done|]. destruct (unmarshal x) as [r|]; [|done].
  by destruct (eOK r).
Qed.

Lemma alter_sameJob (f : Task → Task) p0 (h : list Task) p t' :
  (∀ t, sameJob t (f t)) →
  alter f p0 h !! p = Some t' → ∃ t, h !! p = Some t ∧ sameJob t t'.
Proof.
  intros Hf [[-> (t & Ht & ->)]|[_ Hl]]%lookup_alter_Some; eauto using sameJob_refl.
Qed.

Lemma sameJob_alter (f : Task → Task) p0 (h : list Task) p t :
  (∀ t, sameJob t (f t)) →
  h !! p = Some t → ∃ t', alter f p0 h !! p = Some t' ∧ sameJob t t'.
Proof.
  intros Hf Ht. rewrite list_lookup_alter. case_decide as E.
  - subst p0. rewrite Ht. simpl. eauto.
  - eauto using sameJob_refl.
Qed.

(** Every record of the state after a step is the record the step found at
    that place, with its credential, request and ID, or the new record of a
    [Submit]. *)
Lemma step_record a s s' ev p t' :
  step a s = Some (s', ev) →
  heap (sq s') !! p = Some t' →
  (∃ t, heap (sq s) !! p = Some t ∧ sameJob t t')
  ∨ (∃ req key id now, a = ASubmit req key id now ∧ t' = newTask req key id now).
Proof.
  intros Hstep Hl'.
  destruct a as [req key id now|i|id now ke|ke|now| |pid|x now].
  - unfold step in Hstep. injection Hstep as <- <-. simpl in Hl'.
    destruct (decide (p < length (heap (sq s)))%nat) as [Hlt|Hge].
    + rewrite lookup_app_l in Hl' by done. left. eauto using sameJob_refl.
    + rewrite lookup_app_r in Hl' by lia.
      destruct (p - length (heap (sq s)))%nat; simpl in Hl'; [|done].
      injection Hl' as <-. right. by exists req, key, id, now.
  - unfold step in Hstep.
    destruct (senders s !! i) as [id|]; simpl in Hstep; [|done].
    unfold send in Hstep. case_decide; simpl in Hstep; [|done].
    injection Hstep as <- <-. left. eauto using sameJob_refl.
  - apply step_cancel_inv in Hstep as [->|(q' & b & HC & ->)];
      [left; eauto using sameJob_refl|].
    apply Cancel_Some in HC as [[-> _]|(p0 & task & _ & _ & _ & _ & ->)];
      [left; eauto using sameJob_refl|].
    left. simpl in Hl'. eapply alter_sameJob; [|done].
    apply cancelTask_sameJob.
  - apply step_clear_inv in Hstep as [->|(q' & n & HC & ->)];
      [left; eauto using sameJob_refl|].
    apply Clear_Some in HC as [-> _]. left. eauto using sameJob_refl.
  - unfold step in Hstep.
    destruct (sseq s) eqn:Hseq; try done.
    destruct (pending (sq s)) as [|id rest] eqn:Hpend; [done|].
    unfold processBegin in Hstep. simpl in Hstep.
    destruct (tasks (sq s) !! id) as [p0|] eqn:Hp0;
      [|injection Hstep as <- <-; left; eauto using sameJob_refl].
    destruct (heap (sq s) !! p0) as [task|] eqn:Ht;
      [|injection Hstep as <- <-; left; eauto using sameJob_refl].
    injection Hstep as <- <-. left. simpl in Hl'.
    eapply alter_sameJob; [|done]. apply startTask_sameJob.
  - unfold step in Hstep.
    destruct (sseq s) as [|id p0 key| |] eqn:Hseq; try done.
    destruct (heap (sq s) !! p0) as [t0|] eqn:Ht; simpl in Hstep; [|done].
    injection Hstep as <- <-. left. eauto using sameJob_refl.
  - unfold step in Hstep.
    destruct (sseq s) as [| |id p0 c|] eqn:Hseq; try done.
    injection Hstep as <- <-. left. eauto using sameJob_refl.
  - apply step_exit_inv in Hstep as (id & p0 & c & _ & -> & _).
    left. simpl in Hl'. eapply alter_sameJob; [|done].
    apply finishTask_sameJob.
Qed.

Lemma KeyInv_keep s s' :
  sseq s' = sseq s →
  workerPath (sq s') = workerPath (sq s) →
  (∀ p t, seqTask (sseq s) = Some p → heap (sq s) !! p = Some t →
          ∃ t', heap (sq s') !! p = Some t' ∧ sameJob t t') →
  KeyInv s → KeyInv s'.
Proof.
  unfold KeyInv. intros -> -> Hkeep HK.
  destruct (sseq s) as [|id p key|id p c|id p c]; [done| | |].
  - destruct HK as (t & Ht & <- & <-).
    destruct (Hkeep p t eq_refl Ht) as (t' & Ht' & Hk & _ & Hi). eauto.
  - destruct HK as (t & Ht & <- & ->).
    destruct (Hkeep p t eq_refl Ht) as (t' & Ht' & Hk & Hr & Hi).
    exists t'. by rewrite Hk, Hr.
  - destruct HK as (t & pid & Ht & <- & ->).
    destruct (Hkeep p t eq_refl Ht) as (t' & Ht' & Hk & Hr & Hi).
    exists t', pid. by rewrite Hk, Hr.
Qed.

Lemma step_IdInv a s s' ev :
  Inv s → IdInv s → step a s = Some (s', ev) → IdInv s'.
Proof.
  intros [Ha _ _ _] HI Hstep id p t' Hp Ht'.
  assert (tasks (sq s') = tasks (sq s) →
          (∀ req key id0 now, a ≠ ASubmit req key id0 now) → ID t' = id)
    as Hold.
  { intros E Hns. rewrite E in Hp.
    destruct (step_record a s s' ev p t' Hstep Ht')
      as [(t & Ht & _ & _ & ->)|(req & key & id0 & now & -> & _)].
    - by apply (HI id p t).
    - by destruct (Hns req key id0 now). }
  destruct a as [req key id0 now|i|id0 now ke|ke|now| |pid|x now].
  - clear Hold. unfold step in Hstep. injection Hstep as <- <-.
    simpl in Hp, Ht'. destruct (decide (id0 = id)) as [->|Hne].
    + rewrite lookup_insert_eq in Hp. injection Hp as <-.
      rewrite lookup_app_r in Ht' by lia.
      replace (length (heap (sq s)) - length (heap (sq s)))%nat with 0%nat
        in Ht' by lia.
      by injection Ht' as <-.
    + rewrite lookup_insert_ne in Hp by done.
      rewrite lookup_app_l in Ht' by by eapply Ha.
      by apply (HI id p t').
  - unfold step in Hstep.
    destruct (senders s !! i) as [id1|]; simpl in Hstep; [|done].
    unfold send in Hstep. case_decide; simpl in Hstep; [|done].
    injection Hstep as <- <-. by apply Hold.
  - apply step_cancel_inv in Hstep as [->|(q' & b & HC & ->)];
      [by apply Hold|].
    apply Cancel_Some in HC as [[-> _]|(p0 & task & _ & _ & _ & _ & ->)];
      by apply Hold.
  - apply step_clear_inv in Hstep as [->|(q' & n & HC & ->)];
      [by apply Hold|].
    apply Clear_Some in HC as [-> _]. simpl in Hp.
    by rewrite lookup_empty in Hp.
  - unfold step in Hstep.
    destruct (sseq s) eqn:Hseq; try done.
    destruct (pending (sq s)) as [|id1 rest] eqn:Hpend; [done|].
    unfold processBegin in Hstep. simpl in Hstep.
    destruct (tasks (sq s) !! id1) as [p0|] eqn:Hp0;
      [|injection Hstep as <- <-; by apply Hold].
    destruct (heap (sq s) !! p0) as [task|] eqn:Ht;
      [|injection Hstep as <- <-; by apply Hold].
    injection Hstep as <- <-. by apply Hold.
  - unfold step in Hstep.
    destruct (sseq s) as [|id1 p0 key| |] eqn:Hseq; try done.
    destruct (heap (sq s) !! p0) as [t0|] eqn:Ht; simpl in Hstep; [|done].
    injection Hstep as <- <-. by apply Hold.
  - unfold step in Hstep.
    destruct (sseq s) as [| |id1 p0 c|] eqn:Hseq; try done.
    injection Hstep as <- <-. by apply Hold.
  - apply step_exit_inv in Hstep as (id1 & p0 & c & _ & -> & _).
    by apply Hold.
Qed.

Lemma reachable_IdInv wp s : reachable wp s → IdInv s.
Proof.
  induction 1 as [|s a s' ev Hr IH Hstep].
  - intros id p t Hp. simpl in Hp. by rewrite lookup_empty in Hp.
  - exact (step_IdInv a s s' ev (reachable_Inv wp s Hr) IH Hstep).
Qed.

Lemma step_KeyInv a s s' ev :
  Inv s → IdInv s → KeyInv s → step a s = Some (s', ev) → KeyInv s'.
Proof.
  intros [Ha Hi Hs Hr] HId HK Hstep.
  destruct a as [req key id now|i|id now ke|ke|now| |pid|x now].
  - unfold step in Hstep. injection Hstep as <- <-.
    apply (KeyInv_keep s); [done|done| |done].
    intros p t Hp Ht. exists t. simpl. split; [|done].
    by apply lookup_app_l_Some.
  - unfold step in Hstep.
    destruct (senders s !! i) as [id|]; simpl in Hstep; [|done].
    unfold send in Hstep. case_decide; simpl in Hstep; [|done].
    injection Hstep as <- <-.
    apply (KeyInv_keep s); eauto using sameJob_refl.
  - apply step_cancel_inv in Hstep as [->|(q' & b & HC & ->)]; [done|].
    apply Cancel_Some in HC as [[-> _]|(p0 & task & _ & _ & _ & _ & ->)].
    + apply (KeyInv_keep s); eauto using sameJob_refl.
    + apply (KeyInv_keep s); [done|done| |done].
      intros p t _ Ht. simpl. apply sameJob_alter; [|done].
      apply cancelTask_sameJob.
  - apply step_clear_inv in Hstep as [->|(q' & n & HC & ->)]; [done|].
    apply Clear_Some in HC as [-> _].
    apply (KeyInv_keep s); eauto using sameJob_refl.
  - unfold step in Hstep.
    destruct (sseq s) eqn:Hseq; try done.
    destruct (pending (sq s)) as [|id rest] eqn:Hpend; [done|].
    unfold processBegin in Hstep. simpl in Hstep.
    destruct (tasks (sq s) !! id) as [p0|] eqn:Hp0;
      [|by injection Hstep as <- <-].
    destruct (heap (sq s) !! p0) as [task|] eqn:Ht;
      [|by injection Hstep as <- <-].
    injection Hstep as <- <-. unfold KeyInv. simpl.
    exists (startTask now task). rewrite list_lookup_alter_eq, Ht.
    split; [done|]. split; [|done]. simpl. by apply (HId id p0 task).
  - unfold step in Hstep. unfold KeyInv in HK.
    destruct (sseq s) as [|id p0 key| |] eqn:Hseq; try done.
    destruct HK as (t & Ht & <- & <-). rewrite Ht in Hstep. simpl in Hstep.
    injection Hstep as <- <-. unfold KeyInv. simpl. eauto.
  - unfold step in Hstep. unfold KeyInv in HK.
    destruct (sseq s) as [| |id p0 c|] eqn:Hseq; try done.
    destruct HK as (t & Ht & <- & ->).
    injection Hstep as <- <-. unfold KeyInv. simpl. eauto.
  - by apply step_exit_inv in Hstep as (id & p0 & c & _ & -> & _).
Qed.

Lemma reachable_KeyInv wp s : reachable wp s → KeyInv s ∧ workerPath (sq s) = wp.
Proof.
  induction 1 as [|s a s' ev Hr [IH Hwp] Hstep]; [done|].
  split; [exact (step_KeyInv a s s' ev (reachable_Inv wp s Hr)
                  (reachable_IdInv wp s Hr) IH Hstep)|].
  clear IH. destruct a as [req key id now|i|id now ke|ke|now| |pid|x now].
  - unfold step in Hstep. by injection Hstep as <- <-.
  - unfold step in Hstep.
    destruct (senders s !! i) as [id|]; simpl in Hstep; [|done].
    unfold send in Hstep. case_decide; simpl in Hstep; [|done].
    by injection Hstep as <- <-.
  - apply step_cancel_inv in Hstep as [->|(q' & b & HC & ->)]; [done|].
    by apply Cancel_Some in HC as [[-> _]|(p0 & task & _ & _ & _ & _ & ->)].
  - apply step_clear_inv in Hstep as [->|(q' & n & HC & ->)]; [done|].
    by apply Clear_Some in HC as [-> _].
  - unfold step in Hstep.
    destruct (sseq s) eqn:Hseq; try done.
    destruct (pending (sq s)) as [|id rest] eqn:Hpend; [done|].
    unfold processBegin in Hstep. simpl in Hstep.
    destruct (tasks (sq s) !! id) as [p0|]; [|by injection Hstep as <- <-].
    destruct (heap (sq s) !! p0) as [task|]; by injection Hstep as <- <-.
  - unfold step in Hstep.
    destruct (sseq s) as [|id p0 key| |]; try done.
    destruct (heap (sq s) !! p0) as [t0|]; simpl in Hstep; [|done].
    by injection Hstep as <- <-.
  - unfold step in Hstep.
    destruct (sseq s) as [| |id p0 c|]; try done. by injection Hstep as <- <-.
  - by apply step_exit_inv in Hstep as (id & p0 & c & _ & -> & _).
Qed.

Lemma killProcess_no_spawn c0 ke msg ev c :
  killProcess c0 ke msg = Some ev → EvSpawn c ∉ ev.
Proof.
  unfold killProcess. destruct (Process c0); [|done].
  intros [= <-] [?|Hin]%elem_of_cons; [done|].
  destruct ke; [|by apply elem_of_nil in Hin].
  apply elem_of_cons in Hin as [?|Hin]; [done|by apply elem_of_nil in Hin].
Qed.

(** A process is started by [AStart] only, for the published command. *)
Lemma step_spawn a s s' ev c :
  step a s = Some (s', ev) → EvSpawn c ∈ ev →
  ∃ id p c0 pid, a = AStart pid ∧ sseq s = SeqPublished id p c0
                 ∧ c = startCmd pid c0.
Proof.
  intros Hstep Hin.
  destruct a as [req key id now|i|id now ke|ke|now| |pid|x now].
  - unfold step in Hstep. injection Hstep as _ <-. by apply elem_of_nil in Hin.
  - unfold step in Hstep.
    destruct (senders s !! i) as [id|]; simpl in Hstep; [|done].
    unfold send in Hstep. case_decide; simpl in Hstep; [|done].
    injection Hstep as _ <-. by apply elem_of_nil in Hin.
  - unfold step in Hstep.
    destruct (Cancel id now ke (sq s)) as [[[q' b] ev']|] eqn:E.
    2:{ injection Hstep as _ <-.
        apply elem_of_cons in Hin as [?|Hin]; [done|by apply elem_of_nil in Hin]. }
    injection Hstep as _ <-. unfold Cancel in E.
    destruct (tasks (sq s) !! id) as [p0|];
      [|injection E as _ _ <-; by apply elem_of_nil in Hin].
    destruct (heap (sq s) !! p0) as [task|];
      [|injection E as _ _ <-; by apply elem_of_nil in Hin].
    exfalso. destruct (currentCmd (sq s)) as [c0|]; simpl in E.
    + destruct (decide (Status task = "running" ∧ current (sq s) = id));
        simpl in E.
      * destruct (killProcess c0 ke
                    (λ e, "[" +:+ id +:+ "] Failed to kill process: " +:+ e))
          as [ev0|] eqn:Hk; simpl in E; [|done].
        assert (ev' = ev0) as -> by (case_decide; by injection E as _ _ <-).
        by apply (killProcess_no_spawn _ _ _ _ c Hk).
      * assert (ev' = []) as -> by (case_decide; by injection E as _ _ <-).
        by apply elem_of_nil in Hin.
    + assert (ev' = []) as -> by (case_decide; by injection E as _ _ <-).
      by apply elem_of_nil in Hin.
  - unfold step in Hstep.
    destruct (Clear ke (sq s)) as [[[q' n] ev']|] eqn:E.
    2:{ injection Hstep as _ <-.
        apply elem_of_cons in Hin as [?|Hin]; [done|by apply elem_of_nil in Hin]. }
    injection Hstep as _ <-. unfold Clear in E.
    exfalso. destruct (currentCmd (sq s)) as [c0|]; simpl in E.
    + destruct (killProcess c0 ke
                  (λ e, "Failed to kill current process: " +:+ e))
        as [ev0|] eqn:Hk; simpl in E; [|done].
      injection E as _ _ <-. by apply (killProcess_no_spawn _ _ _ _ c Hk).
    + injection E as _ _ <-. by apply elem_of_nil in Hin.
  - unfold step in Hstep.
    destruct (sseq s) eqn:Hseq; try done.
    destruct (pending (sq s)) as [|id rest]; [done|].
    destruct (processBegin id now (dropPending (sq s))) as [[[q' p] key]|];
      injection Hstep as _ <-; [|by apply elem_of_nil in Hin].
    destruct (heap q' !! p); [|by apply elem_of_nil in Hin].
    apply elem_of_cons in Hin as [?|Hin]; [done|by apply elem_of_nil in Hin].
  - unfold step in Hstep.
    destruct (sseq s) as [|id p0 key| |]; try done.
    destruct (heap (sq s) !! p0) as [t0|]; simpl in Hstep; [|done].
    injection Hstep as _ <-. by apply elem_of_nil in Hin.
  - unfold step in Hstep.
    destruct (sseq s) as [| |id p0 c0|] eqn:Hseq; try done.
    injection Hstep as _ <-.
    apply elem_of_cons in Hin as [[= ->]|Hin]; [|by apply elem_of_nil in Hin].
    eauto 10.
  - apply step_exit_inv in Hstep as (id & p0 & c0 & _ & _ & Hex).
    unfold exitStep in Hex. injection Hex as _ ->.
    destruct (heap (sq s) !! p0) as [t0|]; [|by apply elem_of_nil in Hin].
    match type of Hin with
    | context [match ?e with Some _ => _ | None => _ end] => destruct e
    end; [|by apply elem_of_nil in Hin].
    apply elem_of_cons in Hin as [Hin|Hin]; [|by apply elem_of_nil in Hin].
    unfold finishLog in Hin. case_decide; [done|]. by destruct (runErr x).
Qed.

(** Every record of a run from a fresh queue was stored by a [Submit] of
    the run, and still has the credential, request and ID it was given. *)
Lemma exec_origin l : ∀ s0 s ev p t,
  exec l s0 = Some (s, ev) →
  heap (sq s) !! p = Some t →
  (∃ t0, heap (sq s0) !! p = Some t0 ∧ sameJob t0 t)
  ∨ ∃ req key id now,
      ASubmit req key id now ∈ l ∧ sameJob (newTask req key id now) t.
Proof.
  induction l as [|a l IH]; intros s0 s ev p t He Ht; simpl in He.
  - injection He as <- <-. left. eauto using sameJob_refl.
  - destruct (step a s0) as [[s1 ev1]|] eqn:Hs; simpl in He; [|done].
    destruct (exec l s1) as [[s2 ev2]|] eqn:He2; simpl in He; [|done].
    injection He as <- <-.
    destruct (IH s1 s2 ev2 p t He2 Ht)
      as [(t1 & Ht1 & Hsame)|(req & key & id & now & Hin & Hsame)].
    + destruct (step_record a s0 s1 ev1 p t1 Hs Ht1)
        as [(t0 & Ht0 & Hsame0)|(req & key & id & now & -> & ->)].
      * left. eauto using sameJob_trans.
      * right. exists req, key, id, now. split; [left|done].
    + right. exists req, key, id, now. split; [by right|done].
Qed.

(** An event of a run is emitted by one of its steps, taken in a state the
    run has reached. *)
Lemma exec_event l : ∀ s0 s ev e,
  exec l s0 = Some (s, ev) → e ∈ ev →
  ∃ l1 a l2 s1 s2 ev0 ev1,
    l = (l1 ++ a :: l2)%list ∧ exec l1 s0 = Some (s1, ev0)
    ∧ step a s1 = Some (s2, ev1) ∧ e ∈ ev1.
Proof.
  induction l as [|a l IH]; intros s0 s ev e He Hin; simpl in He.
  - injection He as _ <-. by apply elem_of_nil in Hin.
  - destruct (step a s0) as [[s1 ev1]|] eqn:Hs; simpl in He; [|done].
    destruct (exec l s1) as [[s2 ev2]|] eqn:He2; simpl in He; [|done].
    injection He as <- <-. apply elem_of_app in Hin as [Hin|Hin].
    + exists [], a, l, s0, s1, [], ev1. by repeat split.
    + destruct (IH s1 s2 ev2 e He2 Hin)
        as (l1 & a' & l2 & s1' & s2' & ev0 & ev1' & -> & He1 & Hs' & Hin').
      exists (a :: l1), a', l2, s1', s2', (ev1 ++ ev0)%list, ev1'.
      split; [done|]. split; [|done]. simpl. rewrite Hs. simpl.
      by rewrite He1.
Qed.

Lemma spawn_delivers wp l s ev c :
  exec l (initial wp) = Some (s, ev) →
  EvSpawn c ∈ ev →
  ∃ l1 pid l2 s1 ev1 id p c0 req key now,
    l = (l1 ++ AStart pid :: l2)%list
    ∧ exec l1 (initial wp) = Some (s1, ev1)
    ∧ sseq s1 = SeqPublished id p c0
    ∧ c = startCmd pid c0
    ∧ ASubmit req key id now ∈ l1
    ∧ cmdPath c = "python3"
    ∧ cmdArgs c = ["python3"; wp]
    ∧ cmdStdin c = workerInput (Request (newTask req key id now)) key
    ∧ field "api_key" (cmdStdin c) = Some (JStr key).
Proof.
  intros He Hin.
  destruct (exec_event l _ _ _ _ He Hin)
    as (l1 & a & l2 & s1 & s2 & ev0 & ev1 & -> & He1 & Hs & Hin1).
  destruct (step_spawn a s1 s2 ev1 c Hs Hin1)
    as (id & p & c0 & pid & -> & Hseq & ->).
  assert (reachable wp s1) as Hreach
    by (eapply exec_reachable; [apply reach_init|done]).
  destruct (reachable_KeyInv wp s1 Hreach) as [HK Hwp].
  unfold KeyInv in HK. rewrite Hseq in HK. destruct HK as (t & Ht & Hid & ->).
  destruct (exec_origin l1 _ _ _ p t He1 Ht)
    as [(t0 & Ht0 & _)|(req & key & id' & now & Hsub & Hk & Hr & Hi)];
    [done|].
  simpl in Hi. assert (id' = id) as -> by congruence.
  exists l1, pid, l2, s1, ev0, id, p,
    (workerCmd (workerPath (sq s1)) (Request t) (apiKey t)), req, key, now.
  split; [done|]. split; [done|]. split; [done|]. split; [done|].
  split; [done|]. simpl. rewrite Hwp, Hr, Hk. done.
Qed.

(** C8.  The JSON of a [Task] does not depend on its credential and has no
    "api_key" field, neither at the top nor in its request; what [Get] and
    [All] put on the wire is the same for a queue and for the queue with
    every credential blanked; two runs of the system that differ only in
    the credentials submitted show callers the same JSON and emit the same
    log lines, kills and spawns up to the "api_key" field of the worker's
    standard input.  The worker command is [python3 <workerPath>] whatever
    the credential, and the credential is the "api_key" field of the
    descriptor on its standard input.  Every worker process started in a
    run from a fresh queue is started by the sequencer for the ID it is
    working on, a job was submitted under that ID earlier in the run, and
    the descriptor on the process's standard input is made of that job's
    request and the credential submitted with it. *)
Theorem C8_credential_not_visible fmt :
  (∀ t k, marshalTask fmt (set_apiKey k t) = marshalTask fmt t
          ∧ field "api_key" (marshalTask fmt t) = None
          ∧ field "api_key" (marshalRequest (Request t)) = None)
  ∧ (∀ q, allJSON fmt (scrubQueue q) = allJSON fmt q
          ∧ ∀ id, getJSON fmt id (scrubQueue q) = getJSON fmt id q)
  ∧ (∀ wp l1 l2 s1 s2 ev1 ev2,
       scrubAction <$> l1 = scrubAction <$> l2 →
       exec l1 (initial wp) = Some (s1, ev1) →
       exec l2 (initial wp) = Some (s2, ev2) →
       allJSON fmt (sq s1) = allJSON fmt (sq s2)
       ∧ (∀ id, getJSON fmt id (sq s1) = getJSON fmt id (sq s2))
       ∧ scrubEvent <$> ev1 = scrubEvent <$> ev2)
  ∧ (∀ wp r k,
       cmdPath (workerCmd wp r k) = "python3"
       ∧ cmdArgs (workerCmd wp r k) = ["python3"; wp]
       ∧ field "api_key" (cmdStdin (workerCmd wp r k)) = Some (JStr k)
       ∧ scrubCmd (workerCmd wp r k) = workerCmd wp r "")
  ∧ (∀ wp l s ev c,
       exec l (initial wp) = Some (s, ev) →
       EvSpawn c ∈ ev →
       ∃ l1 pid l2 s1 ev1 id p c0 req key now,
         l = (l1 ++ AStart pid :: l2)%list
         ∧ exec l1 (initial wp) = Some (s1, ev1)
         ∧ sseq s1 = SeqPublished id p c0
         ∧ c = startCmd pid c0
         ∧ ASubmit req key id now ∈ l1
         ∧ cmdPath c = "python3"
         ∧ cmdArgs c = ["python3"; wp]
         ∧ cmdStdin c = workerInput (Request (newTask req key id now)) key
         ∧ field "api_key" (cmdStdin c) = Some (JStr key)).
Proof.
  split; [|split; [|split; [|split]]].
  - intros t k. split; [reflexivity|].
    split; [apply field_marshalTask | apply field_marshalRequest].
  - intros q. split; [apply allJSON_scrub|]. intros id. apply getJSON_scrub.
  - intros wp l1 l2 s1 s2 ev1 ev2 Hl H1 H2.
    apply exec_scrub in H1, H2. rewrite scrubSys_initial in H1, H2.
    rewrite Hl in H1. rewrite H1 in H2.
    assert (scrubSys s1 = scrubSys s2) as Hs by congruence.
    assert (scrubEvent <$> ev1 = scrubEvent <$> ev2) as Hev by congruence.
    assert (scrubQueue (sq s1) = scrubQueue (sq s2)) as Hq
      by exact (f_equal sq Hs).
    split; [|split; [|done]].
    + by rewrite <- (allJSON_scrub fmt (sq s1)), Hq, allJSON_scrub.
    + intros id.
      by rewrite <- (getJSON_scrub fmt id (sq s1)), Hq, getJSON_scrub.
  - intros wp r k. repeat split.
  - apply spawn_delivers.
Qed.

Lemma C8_witness :
  ∃ s1 s2 ev1 ev2 c,
    exec (run_with secretA) (initial "./worker.py") = Some (s1, ev1)
    ∧ exec (run_with secretB) (initial "./worker.py") = Some (s2, ev2)
    ∧ apiKey <$> Get "aaaaaaaa" (sq s1) = Some secretA
    ∧ apiKey <$> Get "aaaaaaaa" (sq s2) = Some secretB
    ∧ allJSON (λ _, "") (sq s1) = allJSON (λ _, "") (sq s2)
    ∧ scrubEvent <$> ev1 = scrubEvent <$> ev2
    ∧ EvSpawn c ∈ ev1
    ∧ cmdArgs c = ["python3"; "./worker.py"]
    ∧ field "api_key" (cmdStdin c) = Some (JStr secretA).
Proof.
  destruct (exec (run_with secretA) (initial "./worker.py")) as [[s1 ev1]|] eqn:E1;
    [|vm_compute in E1; discriminate].
  destruct (exec (run_with secretB) (initial "./worker.py")) as [[s2 ev2]|] eqn:E2;
    [|vm_compute in E2; discriminate].
  exists s1, s2, ev1, ev2,
    (startCmd 4242 (workerCmd "./worker.py"
                      (mkTaskRequestSafe "A" "" "Ollama" "llama3.2" false false 30)
                      secretA)).
  split; [reflexivity|]. split; [reflexivity|].
  assert (EvSpawn (startCmd 4242
                     (workerCmd "./worker.py"
                        (mkTaskRequestSafe "A" "" "Ollama" "llama3.2" false false 30)
                        secretA)) ∈ ev1) as Hspawn.
  { pose proof E1 as E. vm_compute in E. injection E as _ <-.
    right. left. }
  split; [pose proof E1 as E; vm_compute in E; injection E as <- _;
          vm_compute; reflexivity|].
  split; [pose proof E2 as E; vm_compute in E; injection E as <- _;
          vm_compute; reflexivity|].
  destruct (proj1 (proj2 (proj2 (C8_credential_not_visible (λ _, ""))))
              "./worker.py" (run_with secretA) (run_with secretB)
              s1 s2 ev1 ev2 eq_refl E1 E2) as (H1 & _ & H3).
  split; [exact H1|]. split; [exact H3|]. split; [exact Hspawn|].
  destruct (proj2 (proj2 (proj2 (proj2 (C8_credential_not_visible (λ _, "")))))
              "./worker.py" (run_with secretA) s1 ev1 _ E1 Hspawn)
    as (l1 & pid & l2 & s0 & ev0 & id & p & c0 & req & key & now
        & Hl & _ & _ & _ & Hsub & _ & Hargs & _ & Hfield).
  split; [exact Hargs|].
  assert (key = secretA) as ->; [|exact Hfield].
  assert (ASubmit req key id now ∈ run_with secretA) as Hsub'
    by (rewrite Hl; apply elem_of_app; by left).
  clear Hsub Hl. rename Hsub' into Hsub.
  unfold run_with in Hsub.
  apply elem_of_cons in Hsub as [[= _ -> _ _]|Hsub]; [done|].
  repeat (apply elem_of_cons in Hsub as [?|Hsub]; [discriminate|]).
  by apply elem_of_nil in Hsub.
Defined.

(** *** [truncate] *)

Lemma length_substring_0 n : ∀ s,
  (n ≤ String.length s)%nat → String.length (String.substring 0 n s) = n.
Proof.
  induction n as [|n IH]; intros [|c s] Hn; simpl in *; try done; try lia.
  rewrite IH; [done|lia].
Qed.

Lemma substring_0_prefix n : ∀ s, ∃ rest, s = String.substring 0 n s +:+ rest.
Proof.
  induction n as [|n IH]; intros [|c s]; simpl.
  - by exists "".
  - by exists (String c s).
  - by exists "".
  - destruct (IH s) as [rest Hrest]. exists rest.
    change (String c s = String c (String.substring 0 n s +:+ rest)).
    by rewrite <- Hrest.
Qed.

(** X1.  [truncate s n] is [s] itself when [s] has at most [n] bytes;
    otherwise it is the first [n] bytes of [s] followed by three dots, so it
    never has more than [n + 3] bytes. *)
Theorem X1_truncate s n :
  ((String.length s ≤ n)%nat → truncate s n = s)
  ∧ ((n < String.length s)%nat →
       truncate s n = String.substring 0 n s +:+ "..."
       ∧ (∃ rest, s = String.substring 0 n s +:+ rest)
       ∧ String.length (truncate s n) = (n + 3)%nat)
  ∧ (String.length (truncate s n) ≤ n + 3)%nat.
Proof.
  unfold truncate.
  destruct (Nat.leb_spec (String.length s) n) as [Hle|Hgt].
  - split; [done|]. split; [lia|lia].
  - assert (String.length (String.substring 0 n s +:+ "...") = (n + 3)%nat) as Hlen.
    { rewrite length_append, length_substring_0 by lia. reflexivity. }
    split; [lia|]. split; [|lia].
    intros _. split; [done|]. split; [apply substring_0_prefix|done].
Qed.

Example truncate_tests :
  truncate "hello" 10 = "hello" ∧ truncate "hello world" 5 = "hello..."
  ∧ truncate "" 5 = "" ∧ truncate "exactly" 7 = "exactly"
  ∧ truncate "exactly8" 7 = "exactly...".
Proof. repeat split; reflexivity. Qed.

(** *** [removePendingOrder] *)



(** *** [Submit] *)

Lemma rankFrom_app_new id l : ∀ i,
  id ∉ l → rankFrom i id (l ++ [id]) = i + Z.of_nat (length l) + 1.
Proof.
  induction l as [|x l IH]; intros i Hn; simpl.
  - rewrite decide_True by done. lia.
  - apply not_elem_of_cons in Hn as [Hne Hn].
    rewrite decide_False by congruence. rewrite IH by done. lia.
Qed.

Lemma rankFrom_app_other id id' l : ∀ i,
  id' ≠ id → rankFrom i id' (l ++ [id]) = rankFrom i id' l.
Proof.
  induction l as [|x l IH]; intros i Hne; simpl.
  - by rewrite decide_False.
  - case_decide; [done|]. by apply IH.
Qed.

(** X3.  A job submitted under an ID that is neither current nor pending
    goes to the back of the line: its position is the number of pending
    jobs plus one, and no other ID's position changes. *)
Theorem X3_submit_position req key id now q :
  current q ≠ id →
  id ∉ pendingOrder q →
  Position id (SubmitStore req key id now q).1
  = Z.of_nat (length (pendingOrder q)) + 1
  ∧ ∀ id', id' ≠ id →
      Position id' (SubmitStore req key id now q).1 = Position id' q.
Proof.
  intros Hc Hn. unfold Position, SubmitStore. simpl. split.
  - rewrite decide_False by done. rewrite rankFrom_app_new by done. lia.
  - intros id' Hne. case_decide; [done|]. by apply rankFrom_app_other.
Qed.

Lemma X3_witness :
  Position "cccccccc" (SubmitStore jobC "" "cccccccc" 3 two_waiting).1 = 3
  ∧ Position "bbbbbbbb" (SubmitStore jobC "" "cccccccc" 3 two_waiting).1 = 2.
Proof.
  assert (pendingOrder two_waiting = ["aaaaaaaa"; "bbbbbbbb"]) as Hpo
    by (vm_compute; reflexivity).
  destruct (X3_submit_position jobC "" "cccccccc" 3 two_waiting) as [H1 H2].
  - vm_compute. discriminate.
  - rewrite Hpo. intros Hin.
    by repeat (apply elem_of_cons in Hin as [Hin|Hin]; [discriminate|]);
      apply elem_of_nil in Hin.
  - split.
    + rewrite H1, Hpo. reflexivity.
    + rewrite H2 by discriminate. vm_compute. reflexivity.
Defined.

(** X4.  After [Submit] has stored a job, [Get] of its ID returns the new
    record (status "queued", created now, no start or finish time), the
    other IDs read as before, and [All] has one more entry, or as many when
    the ID was taken, in which case the new record replaces the old one. *)
Theorem X4_submit_get req key id now q :
  allocated q →
  Get id (SubmitStore req key id now q).1 = Some (newTask req key id now)
  ∧ (∀ id', id' ≠ id → Get id' (SubmitStore req key id now q).1 = Get id' q)
  ∧ (tasks q !! id = None →
       size (All (SubmitStore req key id now q).1) = S (size (All q)))
  ∧ (is_Some (tasks q !! id) →
       size (All (SubmitStore req key id now q).1) = size (All q))
  ∧ allocated (SubmitStore req key id now q).1.
Proof.
  intros Hal. unfold Get, All, SubmitStore. simpl.
  split; [|split; [|split; [|split]]].
  - rewrite lookup_insert_eq. simpl.
    rewrite lookup_app_r by lia. by rewrite Nat.sub_diag.
  - intros id' Hne. rewrite lookup_insert_ne by done.
    destruct (tasks q !! id') as [p|] eqn:Hp; simpl; [|done].
    apply lookup_app_l. eauto.
  - intros Hnone. by apply map_size_insert_None.
  - intros [p Hp]. by eapply map_size_insert_Some.
  - intros id' p. simpl. rewrite lookup_insert, length_app. simpl.
    case_decide; [intros [= <-]; lia|]. intros H'%Hal. lia.
Qed.

Lemma X4_witness :
  Get "cccccccc" (SubmitStore jobC "k" "cccccccc" 3 two_waiting).1
  = Some (newTask jobC "k" "cccccccc" 3)
  ∧ Get "aaaaaaaa" (SubmitStore jobC "k" "cccccccc" 3 two_waiting).1
    = Get "aaaaaaaa" two_waiting.
Proof.
  destruct (X4_submit_get jobC "k" "cccccccc" 3 two_waiting) as (H1 & H2 & _).
  - intros id p Hp.
    assert (id = "aaaaaaaa" ∧ p = 0%nat ∨ id = "bbbbbbbb" ∧ p = 1%nat) as Hcases.
    { change (tasks two_waiting) with
        (<["bbbbbbbb" := 1%nat]> (<["aaaaaaaa" := 0%nat]> (∅ : gmap string nat))) in Hp.
      apply lookup_insert_Some in Hp as [[<- <-]|[_ Hp]]; [by right|].
      apply lookup_insert_Some in Hp as [[<- <-]|[_ Hp]]; [by left|].
      by rewrite lookup_empty in Hp. }
    assert (length (heap two_waiting) = 2%nat) as -> by (vm_compute; reflexivity).
    destruct Hcases as [[_ ->]|[_ ->]]; lia.
  - split; [exact H1|]. apply H2. discriminate.
Defined.

(** *** Validation followed by [Submit] *)

Lemma defaultModel_nonempty p m :
  validProviders p = true → defaultModel p m ≠ "".
Proof.
  unfold validProviders, defaultModel. intros Hp%bool_decide_eq_true.
  case_decide as Hm; [|done].
  repeat (apply elem_of_cons in Hp as [->|Hp]; [by vm_compute|]).
  by apply elem_of_nil in Hp.
Qed.

(** X5.  A request that passes [validateRequest] is stored by [Submit] field
    for field: the defaults of [Submit] never fire on it.  Its goal is the
    trimmed, non-empty goal, its provider is a supported one, its model is
    not empty (the submitted one when there was one), its step budget is in
    [1,100] and its app is empty or a well-formed package name. *)
Theorem X5_validated_request_stored req key r id now :
  validateRequest req key = inr r →
  Request (newTask r key id now)
  = mkTaskRequestSafe (Goal r) (App r) (Provider r) (Model r) (Reasoning r)
                      (Vision r) (MaxSteps r)
  ∧ Goal r = TrimSpace (Goal req) ∧ Goal r ≠ ""
  ∧ validProviders (Provider r) = true
  ∧ Model r ≠ "" ∧ (Model req ≠ "" → Model r = Model req)
  ∧ 1 ≤ MaxSteps r ≤ 100
  ∧ App r = App req ∧ (App r = "" ∨ matchPackageName (App r) = true)
  ∧ (key = "" → Provider r = "Ollama").
Proof.
  intros Hv.
  assert (¬ rejection_condition req key) as Hn.
  { intros Hr. apply validateRequest_rejects in Hr as [msg Hr]. congruence. }
  apply validateRequest_accepts in Hv. subst r. simpl.
  assert (validProviders (defaultProvider (Provider req)) = true) as Hp.
  { destruct (validProviders (defaultProvider (Provider req))) eqn:E; [done|].
    exfalso. apply Hn. right; left. done. }
  assert (TrimSpace (Goal req) ≠ "") as Hg.
  { intros E. apply Hn. by left. }
  pose proof (defaultModel_nonempty _ (Model req) Hp) as Hm.
  pose proof (clampSteps_spec (MaxSteps req)) as (Hc & _).
  split; [|repeat split; try done].
  - unfold newTask. simpl. f_equal.
    + unfold submitProvider. case_decide as E; [|done].
      rewrite E in Hp. by vm_compute in Hp.
    + unfold submitModel. by rewrite decide_False.
    + apply submitSteps_clamped.
  - intros Hne. unfold defaultModel. by rewrite decide_False.
  - lia.
  - lia.
  - destruct (decide (App req = "")) as [|Ha]; [by left|]. right.
    destruct (matchPackageName (App req)) eqn:E; [done|].
    exfalso. apply Hn. right; right; left. done.
  - intros ->. destruct (decide (defaultProvider (Provider req) = "Ollama")); [done|].
    exfalso. apply Hn. right; right; right. done.
Qed.

Lemma X5_witness :
  Request (newTask (mkTaskRequest "open settings" "" "Anthropic"
                      "claude-sonnet-4-20250514" false false 100 "")
             "k" "a1b2c3d4" 1)
  = mkTaskRequestSafe "open settings" "" "Anthropic" "claude-sonnet-4-20250514"
                      false false 100.
Proof.
  exact (proj1 (X5_validated_request_stored
                  (mkTaskRequest "  open settings " "" "Anthropic" "" false false 250 "")
                  "k" _ "a1b2c3d4" 1 eq_refl)).
Defined.

(** *** [Clear] *)

Lemma rankFrom_elem id l : ∀ i, id ∈ l → i + 1 ≤ rankFrom i id l.
Proof.
  induction l as [|x l IH]; intros i Hin; simpl; [by apply elem_of_nil in Hin|].
  case_decide as Hx; [lia|].
  apply elem_of_cons in Hin as [->|Hin]; [done|].
  specialize (IH (i + 1) Hin). lia.
Qed.


(** *** The worker's exit *)

Lemma finishTask_terminal x now t : terminal (Status (finishTask x now t)).
Proof.
  unfold finishTask, terminal. simpl.
  case_decide as Hc; simpl; [by right; right|].
  destruct (runErr x); simpl; [by right; left|].
  destruct (unmarshal x) as [r|]; simpl; [|by right; left].
  destruct (eOK r); simpl; [by left|by right; left].
Qed.

Lemma finishTask_stamps x now t :
  FinishedAt (finishTask x now t) = now ∧ Logs (finishTask x now t) = stderr x.
Proof.
  unfold finishTask. simpl. case_decide; [done|].
  destruct (runErr x); [done|]. destruct (unmarshal x) as [r|]; [|done].
  by destruct (eOK r).
Qed.

(** X7.  Whenever the worker of the sequencer's job exits, in any reachable
    state and with any outcome, the job ends in a terminal state with its
    finish time and its log text (the worker's standard error) set, the
    sequencer is idle again with no current job and no published command,
    and no other record is written.  If the job still read "running": a
    run error makes it "failed" with the standard error as error text, or
    the run error's text when standard error is empty; an envelope with
    [ok] true makes it "completed" with the envelope's success flag, reason
    and steps, whether or not the flag is true. *)
Theorem X7_worker_exit wp s id p c x now :
  reachable wp s →
  sseq s = SeqRunning id p c →
  ∃ s' ev t t',
    step (AExit x now) s = Some (s', ev)
    ∧ heap (sq s) !! p = Some t ∧ heap (sq s') !! p = Some t'
    ∧ terminal (Status t') ∧ FinishedAt t' = now ∧ Logs t' = stderr x
    ∧ sseq s' = SeqIdle ∧ current (sq s') = "" ∧ currentCmd (sq s') = None
    ∧ (∀ p', p' ≠ p → heap (sq s') !! p' = heap (sq s) !! p')
    ∧ (Status t = "running" → ∀ e, runErr x = Some e →
         Status t' = "failed"
         ∧ Error t' = (if decide (stderr x = "") then e else stderr x))
    ∧ (Status t = "running" → runErr x = None →
       ∀ r, unmarshal x = Some r → eOK r = true →
         Status t' = "completed" ∧ Success t' = eSuccess r
         ∧ Result t' = eReason r ∧ Steps t' = eSteps r ∧ Error t' = Error t).
Proof.
  intros Hreach Hseq.
  pose proof (reachable_Inv wp s Hreach) as [_ _ Hs _].
  destruct (lookup_lt_is_Some_2 (heap (sq s)) p) as [t Ht].
  { apply Hs. by rewrite Hseq. }
  destruct (exit_finishes_task s id p c t x now Hseq Ht)
    as (s' & Hstep & Hidle & Hl & Hcur & Hcmd).
  exists s', [finishLog id x t (finishTask x now t)], t, (finishTask x now t).
  split; [exact Hstep|]. split; [done|]. split; [done|].
  split; [apply finishTask_terminal|].
  destruct (finishTask_stamps x now t) as [Hf Hlog].
  split; [done|]. split; [done|]. split; [done|]. split; [done|]. split; [done|].
  split; [|split].
  - intros p' Hne. unfold step in Hstep. rewrite Hseq in Hstep.
    injection Hstep as <- _. simpl. by apply list_lookup_alter_ne.
  - intros Hrun e He. unfold finishTask. simpl.
    rewrite decide_False by (rewrite Hrun; discriminate). by rewrite He.
  - intros Hrun He r Hu Hok. unfold finishTask. simpl.
    rewrite decide_False by (rewrite Hrun; discriminate).
    by rewrite He, Hu, Hok.
Qed.

Lemma X7_witness :
  ∃ s' ev t',
    step (AExit crashed_exit 3) worker_spawned = Some (s', ev)
    ∧ heap (sq s') !! 0%nat = Some t'
    ∧ Status t' = "failed" ∧ Error t' = "Traceback: adb not found"
    ∧ FinishedAt t' = 3.
Proof.
  destruct (X7_worker_exit "./worker.py" worker_spawned "aaaaaaaa" 0%nat
              (startCmd 4242 cmdA) crashed_exit 3)
    as (s' & ev & t & t' & Hstep & Ht & Ht' & _ & Hf & _ & _ & _ & _ & _ & Hfail & _).
  - apply (exec_reachable "./worker.py"
             [ASubmit jobA "" "aaaaaaaa" 1; ASend 0%nat; ADequeue 2; ARegister;
              AStart 4242]
             (initial "./worker.py") worker_spawned
             (emitted [ASubmit jobA "" "aaaaaaaa" 1; ASend 0%nat; ADequeue 2;
                       ARegister; AStart 4242]));
      [apply reach_init | vm_compute; reflexivity].
  - vm_compute. reflexivity.
  - exists s', ev, t'. split; [exact Hstep|]. split; [exact Ht'|].
    assert (Status t = "running") as Hrun
      by (vm_compute in Ht; injection Ht as <-; reflexivity).
    destruct (Hfail Hrun "exit status 1" eq_refl) as [H1 H2].
    split; [exact H1|]. split; [exact H2|exact Hf].
Defined.

(** *** Bookkeeping invariants *)

Lemma elem_of_removePendingOrder id id' l :
  id ≠ id' → id ∈ l → id ∈ removePendingOrder id' l.
Proof.
  intros Hne. induction l as [|x l IH]; simpl; [done|].
  intros Hin. case_decide as Hx.
  - apply elem_of_cons in Hin as [->|Hin]; [congruence|done].
  - apply elem_of_cons in Hin as [->|Hin]; [left|right; auto].
Qed.

Lemma removePendingOrder_subseteq id l x : x ∈ removePendingOrder id l → x ∈ l.
Proof.
  induction l as [|y l IH]; simpl; [done|]. case_decide.
  - by right.
  - intros [->|Hin]%elem_of_cons; [left|right; auto].
Qed.

Lemma finishTask_not_queued x now t : Status (finishTask x now t) ≠ "queued".
Proof.
  destruct (finishTask_terminal x now t) as [->|[->| ->]]; discriminate.
Qed.

Lemma QueueInv_initial wp : QueueInv (initial wp).
Proof.
  split; simpl; [unfold pendingCap; lia| |done].
  by intros id ?%elem_of_nil.
Qed.

Lemma step_QueueInv a s s' ev :
  Inv s → QueueInv s → step a s = Some (s', ev) → QueueInv s'.
Proof.
  intros [Ha Hi Hs Hr] [Hroom Hst Hq] Hstep.
  destruct a as [req key id now|i|id now ke|ke|now| |pid|x now].
  - unfold step in Hstep. injection Hstep as <- <-. split; simpl; [done| |].
    + intros id' [Hin|Hin]%elem_of_app.
      * destruct (decide (id = id')) as [->|Hne];
          [by rewrite lookup_insert_eq|by rewrite lookup_insert_ne; auto].
      * apply list_elem_of_singleton in Hin as ->. by rewrite lookup_insert_eq.
    + intros id' p t. rewrite lookup_insert. case_decide as Hid.
      * subst id'. intros _ _ _. apply elem_of_app. right. left.
      * intros Hp Hl Hst'. apply elem_of_app. left.
        rewrite lookup_app_l in Hl by eauto. eauto.
  - unfold step in Hstep.
    destruct (senders s !! i) as [id|]; simpl in Hstep; [|done].
    unfold send in Hstep. case_decide as Hlt; simpl in Hstep; [|done].
    injection Hstep as <- <-. split; simpl; [|done|done].
    rewrite length_app. simpl. lia.
  - apply step_cancel_inv in Hstep as [->|(q' & b & HC & ->)]; [by split|].
    apply Cancel_Some in HC as [[-> _]|(p0 & task & Hp0 & Ht & Hst0 & _ & ->)];
      [by split|].
    split; simpl; [done| |].
    + intros id' Hin%removePendingOrder_subseteq. auto.
    + intros id' p t Hp [[-> (t0 & _ & ->)]|[Hne Hl]]%lookup_alter_Some Hst';
        [done|].
      apply elem_of_removePendingOrder; [|eauto]. congruence.
  - apply step_clear_inv in Hstep as [->|(q' & n & HC & ->)]; [by split|].
    apply Clear_Some in HC as [-> _]. split; simpl; [lia| |done].
    by intros id ?%elem_of_nil.
  - unfold step in Hstep.
    destruct (sseq s) eqn:Hseq; try done.
    destruct (pending (sq s)) as [|id rest] eqn:Hpend; [done|].
    assert (length rest ≤ pendingCap)%nat as Hrest by (simpl in Hroom; lia).
    unfold processBegin in Hstep. simpl in Hstep.
    destruct (tasks (sq s) !! id) as [p0|] eqn:Hp0;
      [|injection Hstep as <- <-; split; simpl; by rewrite ?Hpend].
    destruct (heap (sq s) !! p0) as [task|] eqn:Ht;
      [|injection Hstep as <- <-; split; simpl; by rewrite ?Hpend].
    injection Hstep as <- <-. split; simpl; [by rewrite Hpend| |].
    + intros id' Hin%removePendingOrder_subseteq. auto.
    + intros id' p t Hp [[-> (t0 & _ & ->)]|[Hne Hl]]%lookup_alter_Some Hst';
        [done|].
      apply elem_of_removePendingOrder; [|eauto]. congruence.
  - unfold step in Hstep.
    destruct (sseq s) as [|id p0 key| |] eqn:Hseq; try done.
    destruct (heap (sq s) !! p0) as [t0|] eqn:Ht; simpl in Hstep; [|done].
    injection Hstep as <- <-. by split.
  - unfold step in Hstep.
    destruct (sseq s) as [| |id p0 c|] eqn:Hseq; try done.
    injection Hstep as <- <-. by split.
  - apply step_exit_inv in Hstep as (id & p0 & c & _ & -> & _).
    split; simpl; [done|done|].
    intros id' p t Hp [[-> (t0 & _ & ->)]|[Hne Hl]]%lookup_alter_Some Hst'.
    + by apply finishTask_not_queued in Hst'.
    + eauto.
Qed.

Lemma reachable_QueueInv wp s : reachable wp s → QueueInv s.
Proof.
  induction 1 as [|s a s' ev Hr IH Hstep]; [apply QueueInv_initial|].
  exact (step_QueueInv a s s' ev (reachable_Inv wp s Hr) IH Hstep).
Qed.

(** X8.  In every reachable state the channel holds at most 100 IDs, so
    [Size] is between 0 and 100; [Cancel] never changes [Size] (a job
    cancelled while waiting is still counted); every job that reads
    "queued" has a position, at least 1 unless its ID is the current one;
    and every ID with a position of at least 1 has a stored record. *)
Theorem X8_queue_bookkeeping wp s :
  reachable wp s →
  0 ≤ Size (sq s) ≤ 100
  ∧ (∀ id now ke q' b ev, Cancel id now ke (sq s) = Some (q', b, ev) →
       Size q' = Size (sq s))
  ∧ (∀ id t, Get id (sq s) = Some t → Status t = "queued" →
       id ∈ pendingOrder (sq s)
       ∧ 0 ≤ Position id (sq s)
       ∧ (current (sq s) ≠ id → 1 ≤ Position id (sq s)))
  ∧ (∀ id, 1 ≤ Position id (sq s) → is_Some (Get id (sq s))).
Proof.
  intros Hreach.
  pose proof (reachable_Inv wp s Hreach) as [Ha _ _ _].
  pose proof (reachable_QueueInv wp s Hreach) as [Hroom Hst Hq].
  split; [unfold Size, pendingCap in *; lia|]. split; [|split].
  - by intros id now ke q' b ev
      [[-> _]|(p & task & _ & _ & _ & _ & ->)]%Cancel_Some.
  - intros id t (p & Hp & Hl)%Get_Some Hqueued.
    pose proof (Hq id p t Hp Hl Hqueued) as Hin. split; [done|].
    unfold Position. case_decide; [done|].
    pose proof (rankFrom_elem id _ 0 Hin). split; [lia|]. intros _. lia.
  - intros id Hpos. unfold Position in Hpos. case_decide; [lia|].
    destruct (decide (id ∈ pendingOrder (sq s))) as [Hin|Hn].
    + destruct (Hst id Hin) as [p Hp].
      destruct (lookup_lt_is_Some_2 (heap (sq s)) p (Ha id p Hp)) as [t Ht].
      exists t. apply Get_Some. eauto.
    + rewrite rankFrom_absent in Hpos by done. lia.
Qed.

Lemma X8_witness :
  0 ≤ Size (sq three_jobs) ≤ 100
  ∧ (∀ q' b ev, Cancel "bbbbbbbb" 5 None (sq three_jobs) = Some (q', b, ev) →
       Size q' = Size (sq three_jobs))
  ∧ 1 ≤ Position "cccccccc" (sq three_jobs).
Proof.
  destruct (X8_queue_bookkeeping "./worker.py" three_jobs) as (H1 & H2 & H3 & _).
  - apply (exec_reachable "./worker.py"
             [ASubmit jobA "" "aaaaaaaa" 1; ASend 0%nat;
              ASubmit jobB "" "bbbbbbbb" 2; ASend 0%nat;
              ASubmit jobC "" "cccccccc" 3; ASend 0%nat;
              ADequeue 4]
             (initial "./worker.py") three_jobs
             (emitted [ASubmit jobA "" "aaaaaaaa" 1; ASend 0%nat;
                       ASubmit jobB "" "bbbbbbbb" 2; ASend 0%nat;
                       ASubmit jobC "" "cccccccc" 3; ASend 0%nat;
                       ADequeue 4]));
      [apply reach_init | vm_compute; reflexivity].
  - split; [exact H1|]. split; [apply H2|].
    apply (H3 "cccccccc" (newTask jobC "" "cccccccc" 3));
      [vm_compute; reflexivity | reflexivity | vm_compute; discriminate].
Defined.

(** *** Who gets killed *)






(** *** The package-name pattern *)

Lemma append_assoc s1 s2 s3 : (s1 +:+ s2) +:+ s3 = s1 +:+ (s2 +:+ s3).
Proof.
  induction s1 as [|a s1 IH]; [done|].
  change (String a ((s1 +:+ s2) +:+ s3) = String a (s1 +:+ (s2 +:+ s3))).
  by rewrite IH.
Qed.

Lemma isDot_not_word a : isDot a = true → isWordByte a = false.
Proof.
  unfold isDot, isWordByte, isLetter. intros ->%N.eqb_eq. reflexivity.
Qed.

Lemma segmentTail_sound n : ∀ s d,
  (String.length s ≤ n)%nat →
  segmentTail d s = true →
  ∃ w rest, s = w +:+ rest
            ∧ matches (Star (Class isWordByte)) w
            ∧ matches (if d then Star (Cat (Class isDot) segment)
                       else Plus (Cat (Class isDot) segment)) rest.
Proof.
  induction n as [|n IH]; intros [|a r] d Hlen Htail; simpl in Hlen; try lia.
  - simpl in Htail. subst d. exists "", "". repeat split; constructor.
  - simpl in Htail. subst d. exists "", "". repeat split; constructor.
  - simpl in Htail. destruct (isWordByte a) eqn:Hw.
    + destruct (IH r d ltac:(lia) Htail) as (w & rest & -> & Hwm & Hrest).
      exists (String a w), rest. split; [done|]. split; [|done].
      change (matches (Star (Class isWordByte)) (String a "" +:+ w)).
      apply m_star_more; [by constructor|done].
    + destruct (isDot a) eqn:Hd; [|done].
      destruct r as [|b r']; [done|].
      apply andb_true_iff in Htail as [Hb Htail]. simpl in Hlen.
      destruct (IH r' true ltac:(lia) Htail) as (w & rest & -> & Hwm & Hrest).
      exists "", (String a (String b (w +:+ rest))). split; [done|].
      split; [constructor|].
      assert (matches (Cat (Class isDot) segment) (String a (String b w))) as Hds.
      { change (matches (Cat (Class isDot) segment)
                  (String a "" +:+ (String b "" +:+ w))).
        apply m_cat; [by constructor|]. apply m_cat; [by constructor|done]. }
      change (String a (String b (w +:+ rest)))
        with (String a (String b w) +:+ rest).
      destruct d; [by apply m_star_more|by apply m_plus].
Qed.

Lemma segmentTail_words w :
  matches (Star (Class isWordByte)) w →
  ∀ d rest, segmentTail d (w +:+ rest) = segmentTail d rest.
Proof.
  remember (Star (Class isWordByte)) as re eqn:Hre.
  induction 1 as [| | |r s1 s2 H1 _ H2 IH2|]; try discriminate; [done|].
  injection Hre as ->. inversion H1 as [p a Ha| | | |]; subst.
  intros d rest. rewrite append_assoc.
  change (segmentTail d (String a (s2 +:+ rest)) = segmentTail d rest).
  simpl. rewrite Ha. by apply IH2.
Qed.

Lemma segmentTail_dotted_segment ds rest d :
  matches (Cat (Class isDot) segment) ds →
  segmentTail true rest = true →
  segmentTail d (ds +:+ rest) = true.
Proof.
  intros Hds Hrest.
  inversion Hds as [|r1 r2 s1 s2 Hdot Hseg| | |]; subst.
  inversion Hdot as [p a Ha| | | |]; subst.
  inversion Hseg as [|r1 r2 s1 s3 Hlet Hw| | |]; subst.
  inversion Hlet as [p b Hb| | | |]; subst.
  rewrite !append_assoc.
  change (segmentTail d (String a (String b (s3 +:+ rest))) = true).
  simpl. rewrite (isDot_not_word a Ha), Ha, Hb. simpl.
  by rewrite segmentTail_words.
Qed.

Lemma segmentTail_star s :
  matches (Star (Cat (Class isDot) segment)) s → segmentTail true s = true.
Proof.
  remember (Star (Cat (Class isDot) segment)) as re eqn:Hre.
  induction 1 as [| | |r s1 s2 H1 _ H2 IH2|]; try discriminate; [done|].
  injection Hre as ->. apply segmentTail_dotted_segment; [done|by apply IH2].
Qed.

(** X10.  The matcher [validateRequest] relies on accepts exactly the
    strings the pattern describes: a letter, then letters, digits and
    underscores, then one or more groups of a dot, a letter and again
    letters, digits and underscores, with nothing before or after. *)
Theorem X10_package_pattern s :
  matchPackageName s = true ↔ matches packageRegex s.
Proof.
  split.
  - destruct s as [|a r]; [done|]. simpl.
    intros [Ha Htail]%andb_true_iff.
    destruct (segmentTail_sound (String.length r) r false (le_n _) Htail)
      as (w & rest & -> & Hw & Hrest).
    change (matches packageRegex ((String a "" +:+ w) +:+ rest)).
    apply m_cat; [|done]. apply m_cat; [by constructor|done].
  - intros Hm. inversion Hm as [|r1 r2 s1 s2 Hseg Hplus| | |]; subst.
    inversion Hseg as [|r1 r2 s0 w Hlet Hw| | |]; subst.
    inversion Hlet as [p a Ha| | | |]; subst.
    inversion Hplus as [| | | |r ds rest Hds Hrest]; subst.
    rewrite append_assoc.
    change (matchPackageName (String a (w +:+ ds +:+ rest)) = true).
    simpl. rewrite Ha. simpl. rewrite segmentTail_words by done.
    apply segmentTail_dotted_segment; [done|by apply segmentTail_star].
Qed.

Lemma X10_witness :
  matches packageRegex "com.whatsapp" ∧ ¬ matches packageRegex "invalid"
  ∧ ¬ matches packageRegex "com.whatsapp ".
Proof.
  split; [by apply X10_package_pattern|].
  split; intros H%X10_package_pattern; discriminate.
Defined.

(** *** The key and the goal of a request *)




Lemma rev_app_spec s1 : ∀ s2, String.rev_app s1 s2 = String.rev s1 +:+ s2.
Proof.
  unfold String.rev. induction s1 as [|a s1 IH]; intros s2; simpl; [done|].
  rewrite (IH (String a s2)), (IH (String a "")), append_assoc. done.
Qed.

Lemma rev_append s1 s2 : String.rev (s1 +:+ s2) = String.rev s2 +:+ String.rev s1.
Proof.
  induction s1 as [|a s1 IH]; [by rewrite append_empty_r|].
  change (String.rev_app (s1 +:+ s2) (String a "")
          = String.rev s2 +:+ String.rev_app s1 (String a "")).
  rewrite !rev_app_spec, IH, append_assoc. done.
Qed.

Lemma rev_involutive s : String.rev (String.rev s) = s.
Proof.
  induction s as [|a s IH]; [done|].
  change (String.rev (String.rev_app s (String a "")) = String a s).
  rewrite rev_app_spec, rev_append, IH. done.
Qed.

Lemma trimLeading_spec n : ∀ back s,
  (String.length s ≤ n)%nat →
  (∃ pre, s = pre +:+ trimLeading back s)
  ∧ (∀ a rest, trimLeading back s = String a rest → asciiSpace a = false).
Proof.
  induction n as [|n IH]; intros back [|a r] Hlen; simpl in Hlen; try lia.
  - split; [by exists ""|done].
  - split; [by exists ""|done].
  - simpl. destruct (asciiSpace a) eqn:Ha.
    { destruct (IH back r ltac:(lia)) as [[pre Hpre] Hfirst].
      split; [|done]. exists (String a pre).
      change (String a r = String a (pre +:+ trimLeading back r)). by rewrite <- Hpre. }
    assert ((∃ pre, String a r = pre +:+ String a r)
            ∧ ∀ a0 rest, String a r = String a0 rest → asciiSpace a0 = false) as Hself.
    { split; [by exists ""|]. by intros a0 rest [= <- _]. }
    destruct r as [|b r2]; [done|]. simpl in Hlen.
    match goal with
    | |- context [if ?c then trimLeading back r2 else _] => destruct c
    end.
    { destruct (IH back r2 ltac:(lia)) as [[pre Hpre] Hfirst].
      split; [|done]. exists (String a (String b pre)).
      change (String a (String b r2)
              = String a (String b (pre +:+ trimLeading back r2))).
      by rewrite <- Hpre. }
    destruct r2 as [|c r3]; [done|]. simpl in Hlen.
    match goal with
    | |- context [if ?c then trimLeading back r3 else _] => destruct c
    end; [|done].
    destruct (IH back r3 ltac:(lia)) as [[pre Hpre] Hfirst].
    split; [|done]. exists (String a (String b (String c pre))).
    change (String a (String b (String c r3))
            = String a (String b (String c (pre +:+ trimLeading back r3)))).
    by rewrite <- Hpre.
Qed.

Lemma trimLeading_blank back s : blank s = true → trimLeading back s = "".
Proof.
  induction s as [|a s IH]; [done|]. simpl.
  intros [Ha Hs]%andb_true_iff. rewrite Ha. auto.
Qed.

Lemma TrimSpace_spec s :
  includes (TrimSpace s) s
  ∧ (∀ a rest, TrimSpace s = String a rest → asciiSpace a = false)
  ∧ (∀ a pre, TrimSpace s = pre +:+ String a "" → asciiSpace a = false)
  ∧ (blank s = true → TrimSpace s = "").
Proof.
  unfold TrimSpace.
  destruct (trimLeading_spec _ false s (le_n _)) as [[pre Hpre] Hfirst].
  set (u := trimLeading false s) in *.
  destruct (trimLeading_spec _ true (String.rev u) (le_n _)) as [[pre2 Hpre2] Hfirst2].
  set (v := trimLeading true (String.rev u)) in *.
  assert (u = String.rev v +:+ String.rev pre2) as Hu.
  { rewrite <- (rev_involutive u), Hpre2, rev_append. done. }
  split; [|split; [|split]].
  - exists pre, (String.rev pre2). by rewrite <- Hu.
  - intros a rest Hv. apply (Hfirst a (rest +:+ String.rev pre2)).
    rewrite Hu, Hv. done.
  - intros a pre' Hv. apply (Hfirst2 a (String.rev pre')).
    rewrite <- (rev_involutive v), Hv, rev_append. done.
  - intros Hb. subst v u. by rewrite (trimLeading_blank false s Hb).
Qed.

(** X12.  The goal [validateRequest] leaves in an accepted request is a
    non-empty piece of the submitted goal that neither begins nor ends with
    an ASCII white-space byte; a goal made of ASCII white space only (the
    empty goal included) is rejected with "goal is required", whatever the
    other fields and the key. *)
Theorem X12_goal_trimmed req key :
  (∀ r, validateRequest req key = inr r →
     Goal r ≠ ""
     ∧ includes (Goal r) (Goal req)
     ∧ (∀ a rest, Goal r = String a rest → asciiSpace a = false)
     ∧ (∀ a pre, Goal r = pre +:+ String a "" → asciiSpace a = false))
  ∧ (blank (Goal req) = true → validateRequest req key = inl "goal is required").
Proof.
  destruct (TrimSpace_spec (Goal req)) as (Hinc & Hfirst & Hlast & Hblank).
  split.
  - intros r Hv.
    assert (TrimSpace (Goal req) ≠ "") as Hne.
    { intros E. unfold validateRequest in Hv. by rewrite decide_True in Hv. }
    apply validateRequest_accepts in Hv. subst r. simpl. done.
  - intros Hb. unfold validateRequest. by rewrite decide_True by auto.
Qed.

Lemma X12_witness :
  validateRequest (mkTaskRequest " 	 " "" "Google" "" false false 0 "") "k"
  = inl "goal is required".
Proof.
  apply (proj2 (X12_goal_trimmed
                  (mkTaskRequest " 	 " "" "Google" "" false false 0 "") "k")).
  reflexivity.
Defined.
